(** * BOUNYYAN: the findings pipeline of the compliance report

    A shallow embedding of the findings processing and spatial overlay code of
    [src/components/ComplianceReport.tsx] (first variant of the component),
    of the data model of [src/types.ts] and of [analyzeDrawingImage] of
    [src/services/geminiService.ts], followed by the properties the
    specification states about them.

    Modelling conventions.
    - A JavaScript [number] is an IEEE 754 binary64 value: Rocq's primitive
      [float], whose operations round to nearest-even as JavaScript's do.
    - A JavaScript string is a [string]; its characters are modelled by
      [ascii], so [toLowerCase] and [trim] act on the ASCII letters and the
      ASCII white space.
    - A [Set<string>] is a [gset string]; the object literal used as a
      dictionary by [groupedFindings] is a [gmap] of own properties under the
      properties every object literal inherits from [Object.prototype].
    - Arrays live in a store addressed by references, so that the in-place
      [sort] and the aliasing of [report.findings] are visible. *)

From Stdlib Require Import Floats.PrimFloat ZArith Ascii String.
From stdpp Require Import gmap strings list sorting.

Local Open Scope string_scope.
Local Open Scope list_scope.

(* Decimal literals such as 0.1 denote the nearest binary64 value, as they do
   in JavaScript. *)
Set Warnings "-inexact-float".

(** ** JavaScript built-ins used by the source *)

Module JS.

(** [String.prototype.toLowerCase], on ASCII letters. *)
Definition lowerChar (c : ascii) : ascii :=
  let n := N_of_ascii c in
  if ((65 <=? n) && (n <=? 90))%N then ascii_of_N (n + 32) else c.

Fixpoint toLowerCase (s : string) : string :=
  match s with
  | EmptyString => EmptyString
  | String c s' => String (lowerChar c) (toLowerCase s')
  end.

(** [String.prototype.trim]: white space is removed at both ends. *)
Fixpoint trimStart (s : string) : string :=
  match s with
  | EmptyString => EmptyString
  | String c s' => if Ascii.is_space c then trimStart s' else s
  end.

Definition trimEnd (s : string) : string :=
  String.rev (trimStart (String.rev s)).

Definition trim (s : string) : string := trimEnd (trimStart s).

(** [ToBoolean] of a string: only the empty string is falsy. *)
Definition truthy (s : string) : bool :=
  match s with EmptyString => false | String _ _ => true end.

(** [s.includes(t)]: [t] occurs in [s] as a substring. *)
Fixpoint includes (s t : string) : bool :=
  String.prefix t s ||
  match s with
  | EmptyString => false
  | String _ s' => includes s' t
  end.

(** [a || b] on strings, as in [f.category || 'General']. *)
Definition orDefault (a b : string) : string := if truthy a then a else b.

(** [Array.prototype.sort(compareFn)].  The language requires the sort to
    be stable; for a consistent comparator the result is then determined:
    [a] stays before [b] unless [compareFn(a, b) > 0]. *)
Section Sort.
Context {A : Type} (compareFn : A → A → Z).

Fixpoint sortInsert (x : A) (l : list A) : list A :=
  match l with
  | [] => [x]
  | y :: l' =>
      if (compareFn x y <=? 0)%Z then x :: y :: l' else y :: sortInsert x l'
  end.

Fixpoint sort (l : list A) : list A :=
  match l with
  | [] => []
  | x :: l' => sortInsert x (sort l')
  end.
End Sort.

(** The comparison [sort()] uses without a comparator: strings are ordered
    by their code units. *)
Definition defaultCompare (a b : string) : Z :=
  match String.compare a b with
  | Lt => (-1)%Z
  | Eq => 0%Z
  | Gt => 1%Z
  end.

(** Reading past the end of an array gives [undefined], which arithmetic
    turns into [NaN]. *)
Definition index (l : list float) (i : nat) : float := nth i l nan.

(** The outcome of a call: a value, or an exception thrown. *)
Inductive Error := TypeError | SyntaxError | OtherError.

Inductive Completion (A : Type) :=
| Normal (a : A)
| Throw (e : Error).
Global Arguments Normal {A} a.
Global Arguments Throw {A} e.

(** The names an object literal inherits from [Object.prototype]; each of
    them holds a function (or, for [__proto__], the prototype), hence a
    truthy value that is not an array. *)
Definition ObjectPrototypeKeys : list string :=
  [ "constructor"; "hasOwnProperty"; "isPrototypeOf";
    "propertyIsEnumerable"; "toLocaleString"; "toString"; "valueOf";
    "__proto__"; "__defineGetter__"; "__defineSetter__";
    "__lookupGetter__"; "__lookupSetter__" ].

(** [Array.from(new Set(xs))]: the distinct elements, each at the place of
    its first occurrence. *)
Definition distinct (xs : list string) : list string :=
  reverse (remove_dups (reverse xs)).

(** *** Arrays as objects

    An array is an object with identity: a variable holds a reference into a
    store.  [filter] and the spread [[...a]] allocate a new array; [sort]
    reorders the array it is called on and returns that same reference. *)
Abbreviation Ref := nat (only parsing).
Abbreviation Store A := (list (list A)) (only parsing).

Section Store.
Context {A : Type}.

Definition M (B : Type) := Store A → B * Store A.

#[global] Instance M_ret : MRet M := λ B (b : B) σ, (b, σ).
#[global] Instance M_bind : MBind M :=
  λ B C (k : B → M C) (m : M B) σ, let '(b, σ') := m σ in k b σ'.

Definition deref (r : Ref) (σ : Store A) : list A := default [] (σ !! r).

Definition alloc (l : list A) : M Ref := λ σ, (List.length σ, σ ++ [l]).

Definition Array_filter (p : A → bool) (r : Ref) : M Ref :=
  λ σ, alloc (List.filter p (deref r σ)) σ.

Definition Array_spread (r : Ref) : M Ref :=
  λ σ, alloc (deref r σ) σ.

Definition Array_sort (compareFn : A → A → Z) (r : Ref) : M Ref :=
  λ σ, (r, <[r := sort compareFn (deref r σ)]> σ).
End Store.
Global Arguments M : clear implicits.

(** [s.split(sep)] for a separator of one character: the pieces between
    the occurrences of [sep]; a string without [sep] is its only piece. *)
Fixpoint split (sep : ascii) (s : string) : list string :=
  match s with
  | EmptyString => [EmptyString]
  | String c s' =>
      if Ascii.eqb c sep then EmptyString :: split sep s'
      else match split sep s' with
           | [] => [String c EmptyString]
           | piece :: pieces => String c piece :: pieces
           end
  end.



End JS.

(** ** Data model ([src/types.ts]) *)

Inductive ComplianceStatus := PASS | FAIL | WARNING | NEEDS_CLARIFICATION.

#[global] Instance ComplianceStatus_eq_dec : EqDecision ComplianceStatus.
Proof. solve_decision. Defined.

Record ComplianceFinding := {
  id : string;
  category : string;
  description : string;
  reference : string;
  status : ComplianceStatus;
  recommendation : string;
  location : option string;
  boundingBox : option (list float)  (* [ymin, xmin, ymax, xmax] *)
}.

Record AnalysisReport := {
  overallScore : float;
  scanDate : string;
  fileName : string;
  findings : list ComplianceFinding;
  summary : string;
  imageBase64 : option string
}.

(** ** The analysis service ([src/services/geminiService.ts]) *)

Module GeminiService.

(** What the call to the provider, [ai.models.generateContent], does: it
    throws (or its promise rejects), or it answers with a response whose
    [text] may be missing. *)
Inductive ProviderOutcome :=
| Rejected
| Responded (text : option string).

(** The fields [JSON.parse] yields and the spread [...data] copies. *)
Record ReportData := {
  data_overallScore : float;
  data_summary : string;
  data_findings : list ComplianceFinding
}.

(** [if (response.text)]: a missing or empty text is falsy. *)
Definition hasText (text : option string) : bool :=
  match text with
  | Some t => JS.truthy t
  | None => false
  end.

Section Analyze.
(** [JSON.parse], which throws on malformed text, and the clock read by
    [new Date().toISOString()]. *)
Variable JSON_parse : string → JS.Completion ReportData.
Variable now : string.

(** The body of the [try] block. *)
Definition tryAnalyze (outcome : ProviderOutcome) (base64Image fileName : string)
  : JS.Completion AnalysisReport :=
  match outcome with
  | Rejected => JS.Throw JS.OtherError
  | Responded text =>
      if hasText text then
        match JSON_parse (default EmptyString text) with
        | JS.Normal data =>
            JS.Normal {| overallScore := data_overallScore data;
                         summary := data_summary data;
                         findings := data_findings data;
                         scanDate := now;
                         fileName := fileName;
                         imageBase64 := Some base64Image |}
        | JS.Throw e => JS.Throw e
        end
      else JS.Throw JS.OtherError  (* "No data returned from Gemini" *)
  end.

(** The report built by the [catch] block. *)
Definition fallbackReport (base64Image fileName : string) : AnalysisReport :=
  {| overallScore := 0;
     summary := "Error processing analysis. Please ensure valid API Key and image format.";
     scanDate := now;
     fileName := fileName;
     imageBase64 := Some base64Image;
     findings :=
       [ {| id := "err-1";
            category := "System";
            description := "Could not complete AI analysis.";
            reference := "N/A";
            status := FAIL;
            recommendation := "Try uploading a clearer image or check connection.";
            location := None;
            boundingBox := Some [0.1; 0.1; 0.9; 0.9]%float |} ] |}.

(** The promise the function returns: [JS.Normal] when it resolves,
    [JS.Throw] when it rejects. *)
Definition analyzeDrawingImage (outcome : ProviderOutcome)
    (base64Image fileName : string) : JS.Completion AnalysisReport :=
  match tryAnalyze outcome base64Image fileName with
  | JS.Normal report => JS.Normal report
  | JS.Throw _ => JS.Normal (fallbackReport base64Image fileName)
  end.
End Analyze.

(** The provider fails: it throws or rejects, or returns no data. *)
Definition providerFails (outcome : ProviderOutcome) : Prop :=
  match outcome with
  | Rejected => True
  | Responded text => hasText text = false
  end.

End GeminiService.

(** ** The compliance report component ([src/components/ComplianceReport.tsx]) *)

Module ComplianceReport.

Inductive SortOption := SEVERITY | REFERENCE | CATEGORY.

(** The type [ComplianceStatus | 'ALL'] of the status filter. *)
Inductive StatusFilter := ALL | Only (s : ComplianceStatus).

(** [f.category || 'General'] *)
Definition categoryOrGeneral (f : ComplianceFinding) : string :=
  JS.orDefault (category f) "General".

Definition allCategories (report : AnalysisReport) : list string :=
  JS.sort JS.defaultCompare
    (JS.distinct (map categoryOrGeneral (findings report))).

(** *** Layer visibility *)

(** The updater [toggleLayer] passes to [setHiddenLayers]: the next set is
    a copy of the previous one in which [category] is flipped. *)
Definition toggleLayer (category : string) (prev : gset string) : gset string :=
  let next := prev in
  if bool_decide (category ∈ next) then next ∖ {[category]}
  else next ∪ {[category]}.

(** The layer menu renders one button per element of [allCategories]; the
    handler of the button of [cat] is [toggleLayer cat]. *)
Definition layerMenu (report : AnalysisReport)
  : list (string * (gset string → gset string)) :=
  map (λ cat, (cat, toggleLayer cat)) (allCategories report).

(** *** Filter, search, sort *)

Definition filterByStatus (filterStatus : StatusFilter)
    (result : list ComplianceFinding) : list ComplianceFinding :=
  match filterStatus with
  | ALL => result
  | Only s => List.filter (λ f, bool_decide (status f = s)) result
  end.

Definition matchesSearch (lowerSearch : string) (f : ComplianceFinding) : bool :=
  JS.includes (JS.toLowerCase (description f)) lowerSearch
  || JS.includes (JS.toLowerCase (reference f)) lowerSearch
  || JS.includes (JS.toLowerCase (category f)) lowerSearch.

Definition filterBySearch (searchText : string)
    (result : list ComplianceFinding) : list ComplianceFinding :=
  if JS.truthy (JS.trim searchText) then
    let lowerSearch := JS.toLowerCase searchText in
    List.filter (matchesSearch lowerSearch) result
  else result.

Definition severityOrder (s : ComplianceStatus) : Z :=
  match s with
  | FAIL => 0
  | WARNING => 1
  | NEEDS_CLARIFICATION => 2
  | PASS => 3
  end.

Section Pipeline.
(** [String.prototype.localeCompare], which depends on the locale of the
    browser. *)
Variable localeCompare : string → string → Z.

Definition compareFindings (sortBy : SortOption) (a b : ComplianceFinding) : Z :=
  match sortBy with
  | REFERENCE => localeCompare (reference a) (reference b)
  | SEVERITY => (severityOrder (status a) - severityOrder (status b))%Z
  | CATEGORY => 0%Z
  end.

(** The three steps of [processedFindings] on the contents of the arrays. *)
Definition processedList (l : list ComplianceFinding)
    (filterStatus : StatusFilter) (searchText : string) (sortBy : SortOption)
  : list ComplianceFinding :=
  JS.sort (compareFindings sortBy)
    (filterBySearch searchText (filterByStatus filterStatus l)).

(** [processedFindings] as the source runs it, on array objects:
    [reportFindings] is the reference held by [report.findings]. *)
Definition processedFindings (reportFindings : JS.Ref)
    (filterStatus : StatusFilter) (searchText : string) (sortBy : SortOption)
  : JS.M ComplianceFinding JS.Ref :=
  let result := reportFindings in
  (* 1. Filter by Status *)
  result ←
    match filterStatus with
    | ALL => mret result
    | Only s => JS.Array_filter (λ f, bool_decide (status f = s)) result
    end;
  (* 2. Filter by Search Text *)
  result ←
    (if JS.truthy (JS.trim searchText) then
       let lowerSearch := JS.toLowerCase searchText in
       JS.Array_filter (matchesSearch lowerSearch) result
     else mret result);
  (* 3. Sort *)
  copy ← JS.Array_spread result;
  JS.Array_sort (compareFindings sortBy) copy.
End Pipeline.

(** *** Findings shown on the drawing *)

Definition isVisible (hiddenLayers : gset string) (drawingSearch : string)
    (f : ComplianceFinding) : bool :=
  match boundingBox f with
  | None => false
  | Some _ =>
      if bool_decide (categoryOrGeneral f ∈ hiddenLayers) then false
      else if JS.truthy (JS.trim drawingSearch) then
        let term := JS.toLowerCase drawingSearch in
        JS.includes (JS.toLowerCase (description f)) term
        || JS.includes (JS.toLowerCase (reference f)) term
        || (JS.truthy (category f)
            && JS.includes (JS.toLowerCase (category f)) term)
      else true
  end.

Definition visibleDrawingFindings (processed : list ComplianceFinding)
    (hiddenLayers : gset string) (drawingSearch : string)
  : list ComplianceFinding :=
  List.filter (isVisible hiddenLayers drawingSearch) processed.

(** *** Grouping *)

(** What reading [groups[cat]] finds. *)
Inductive Property :=
| Own (bucket : list ComplianceFinding)
| Inherited
| Undefined.

Definition getProperty (groups : gmap string (list ComplianceFinding))
    (cat : string) : Property :=
  match groups !! cat with
  | Some bucket => Own bucket
  | None =>
      if bool_decide (cat ∈ JS.ObjectPrototypeKeys) then Inherited
      else Undefined
  end.

(** The callback of [processedFindings.forEach]. *)
Definition groupFinding (groups : gmap string (list ComplianceFinding))
    (finding : ComplianceFinding)
  : JS.Completion (gmap string (list ComplianceFinding)) :=
  let cat := categoryOrGeneral finding in
  (* if (!groups[cat]) groups[cat] = []; *)
  let groups :=
    match getProperty groups cat with
    | Undefined => <[cat := []]> groups
    | _ => groups
    end in
  (* groups[cat].push(finding); *)
  match getProperty groups cat with
  | Own bucket => JS.Normal (<[cat := bucket ++ [finding]]> groups)
  | _ => JS.Throw JS.TypeError
  end.

Fixpoint forEachFinding (processed : list ComplianceFinding)
    (groups : gmap string (list ComplianceFinding))
  : JS.Completion (gmap string (list ComplianceFinding)) :=
  match processed with
  | [] => JS.Normal groups
  | finding :: rest =>
      match groupFinding groups finding with
      | JS.Normal groups' => forEachFinding rest groups'
      | JS.Throw e => JS.Throw e
      end
  end.

Definition groupedFindings (processed : list ComplianceFinding)
  : JS.Completion (gmap string (list ComplianceFinding)) :=
  forEachFinding processed ∅.

(** [Object.keys(groupedFindings).sort()] *)
Definition categories (groups : gmap string (list ComplianceFinding))
  : list string :=
  JS.sort JS.defaultCompare (elements (dom groups)).

(** *** Overlay geometry *)

(** A rectangle in percent of the image. *)
Record Rect := { x : float; y : float; width : float; height : float }.

Record Zone := {
  zone_key : string;
  zone_rect : Rect;
  zone_emphasis : bool;        (* isActive || isHovered *)
  zone_pulse : option Rect     (* the dashed rectangle of the active finding *)
}.

Definition overlayRect (bb : list float) : Rect :=
  let ymin := JS.index bb 0 in
  let xmin := JS.index bb 1 in
  let ymax := JS.index bb 2 in
  let xmax := JS.index bb 3 in
  {| x := (xmin * 100)%float;
     y := (ymin * 100)%float;
     width := ((xmax - xmin) * 100)%float;
     height := ((ymax - ymin) * 100)%float |}.

(** The callback of the first [visibleDrawingFindings.map]. *)
Definition renderZone (activeFindingId hoveredFindingId : option string)
    (finding : ComplianceFinding) : option Zone :=
  match boundingBox finding with
  | None => None
  | Some bb =>
      let r := overlayRect bb in
      let isActive := bool_decide (activeFindingId = Some (id finding)) in
      let isHovered := bool_decide (hoveredFindingId = Some (id finding)) in
      Some {| zone_key := id finding;
              zone_rect := r;
              zone_emphasis := isActive || isHovered;
              zone_pulse :=
                if isActive then
                  Some {| x := (x r - 1)%float; y := (y r - 1)%float;
                          width := (width r + 2)%float;
                          height := (height r + 2)%float |}
                else None |}
  end.

(** The two values of the [transform] of a tooltip. *)
Inductive Transform :=
| Below   (* translateY(10px) *)
| Above.  (* translateY(-100%) translateY(-10px) *)

Record Tooltip := {
  tooltip_finding : ComplianceFinding;
  tooltip_top : float;
  tooltip_left : float;
  tooltip_transform : Transform
}.

(** The callback of the second [visibleDrawingFindings.map]. *)
Definition renderTooltip (activeFindingId hoveredFindingId : option string)
    (finding : ComplianceFinding) : option Tooltip :=
  let isActive := bool_decide (activeFindingId = Some (id finding)) in
  let isHovered := bool_decide (hoveredFindingId = Some (id finding)) in
  match boundingBox finding with
  | Some bb =>
      if negb isActive && negb isHovered then None
      else
        let ymin := JS.index bb 0 in
        let xmin := JS.index bb 1 in
        let topVal := (ymin * 100)%float in
        let leftVal := (xmin * 100)%float in
        let isNearTop := (topVal <? 15)%float in
        Some {| tooltip_finding := finding;
                tooltip_top := topVal;
                tooltip_left := leftVal;
                tooltip_transform := if isNearTop then Below else Above |}
  | None => None
  end.

(** *** Counters *)

Record Stats := {
  stats_pass : nat;
  stats_fail : nat;
  stats_warning : nat;
  stats_info : nat
}.

Definition countStatus (s : ComplianceStatus) (fs : list ComplianceFinding)
  : nat :=
  List.length (List.filter (λ f, bool_decide (status f = s)) fs).

Definition stats (report : AnalysisReport) : Stats :=
  {| stats_pass := countStatus PASS (findings report);
     stats_fail := countStatus FAIL (findings report);
     stats_warning := countStatus WARNING (findings report);
     stats_info := countStatus NEEDS_CLARIFICATION (findings report) |}.

(** The slices of the pie chart: name and value. *)
Definition data (report : AnalysisReport) : list (string * nat) :=
  [ ("Pass", stats_pass (stats report));
    ("Fail", stats_fail (stats report));
    ("Warning", stats_warning (stats report)) ].

(** The number shown beside a category in the layer menu. *)
Definition layerCount (report : AnalysisReport) (cat : string) : nat :=
  List.length
    (List.filter (λ f, bool_decide (categoryOrGeneral f = cat))
       (findings report)).

(** *** The layer state and its reset *)

Record Layers := {
  hiddenLayers : gset string;
  showBaseLayer : bool
}.

Definition initialLayers : Layers :=
  {| hiddenLayers := ∅; showBaseLayer := true |}.

(** [hiddenLayers.size > 0 || !showBaseLayer]: the Reset button is drawn. *)
Definition resetOffered (st : Layers) : bool :=
  Nat.ltb 0 (size (hiddenLayers st)) || negb (showBaseLayer st).

(** [setHiddenLayers(new Set()); setShowBaseLayer(true)] *)
Definition resetLayers (st : Layers) : Layers :=
  {| hiddenLayers := ∅; showBaseLayer := true |}.

Definition toggleBaseLayer (st : Layers) : Layers :=
  {| hiddenLayers := hiddenLayers st;
     showBaseLayer := negb (showBaseLayer st) |}.

(** *** The export selection *)

Definition toggleExportCategory (category : string) (prev : list string)
  : list string :=
  if bool_decide (category ∈ prev)
  then List.filter (λ c, bool_decide (c ≠ category)) prev
  else prev ++ [category].

Definition toggleExportStatus (status : ComplianceStatus)
    (prev : list ComplianceStatus) : list ComplianceStatus :=
  if bool_decide (status ∈ prev)
  then List.filter (λ s, bool_decide (s ≠ status)) prev
  else prev ++ [status].

(** The effect that runs when [allCategories] changes. *)
Definition initExportCategories (allCategories exportCategories : list string)
  : list string :=
  if Nat.ltb 0 (List.length allCategories)
     && Nat.eqb (List.length exportCategories) 0
  then allCategories else exportCategories.

(** The button above the category list: its label and its handler. *)
Definition allSelected (allCategories exportCategories : list string) : bool :=
  Nat.eqb (List.length exportCategories) (List.length allCategories).

Definition selectAllLabel (allCategories exportCategories : list string)
  : string :=
  if allSelected allCategories exportCategories
  then "Deselect All" else "Select All".

Definition selectAllClick (allCategories exportCategories : list string)
  : list string :=
  if allSelected allCategories exportCategories then [] else allCategories.

(** *** The findings list *)


(** The cards of the list view, in the order they are drawn:
    [categories.map(cat => groupedFindings[cat].map(...))]. *)
Definition listCards (groups : gmap string (list ComplianceFinding))
  : list ComplianceFinding :=
  flat_map (λ cat, default [] (groups !! cat)) (categories groups).

(** The counts of the contents: [groupedFindings[cat].length]. *)
Definition contents (groups : gmap string (list ComplianceFinding))
  : list (string * nat) :=
  map (λ cat, (cat, List.length (default [] (groups !! cat))))
    (categories groups).

(** [categories.length === 0]: the text "No findings match your filters." *)
Definition noMatches (groups : gmap string (list ComplianceFinding)) : bool :=
  Nat.eqb (List.length (categories groups)) 0.

(** *** The overlays *)

(** The elements the two [visibleDrawingFindings.map] calls draw over the
    image; a callback that returns [null] draws nothing. *)
Definition zoneOverlay (activeFindingId hoveredFindingId : option string)
    (visible : list ComplianceFinding) : list Zone :=
  omap (renderZone activeFindingId hoveredFindingId) visible.

Definition tooltipOverlay (activeFindingId hoveredFindingId : option string)
    (visible : list ComplianceFinding) : list Tooltip :=
  omap (renderTooltip activeFindingId hoveredFindingId) visible.

End ComplianceReport.

Import ComplianceReport.

(** ** The upload control ([src/components/FileUpload.tsx]) *)

Module FileUpload.

(** The two properties of a [File] the component reads. *)
Record File := {
  file_name : string;
  file_type : string
}.

Definition validTypes : list string :=
  ["image/jpeg"; "image/png"; "image/webp"].

Definition demoError : string :=
  "For this demo version, please upload an Image (PNG/JPG) of your drawing plan.".

(** [base64String.split(',')[1]]: [None] stands for [undefined]. *)
Definition base64Data (base64String : string) : option string :=
  JS.split "," base64String !! 1.

(** The result of [handleFile]: the error shown, and the call of [onUpload]
    made once the reader has loaded the file as the data URL [readerResult]. *)
Record Handled := {
  error : option string;
  uploaded : option (File * option string)
}.

Definition handleFile (file : File) (readerResult : string) : Handled :=
  if bool_decide (file_type file ∈ validTypes) then
    {| error := None;
       uploaded := Some (file, base64Data readerResult) |}
  else
    {| error := Some demoError; uploaded := None |}.

End FileUpload.

(** ** The consultant chat ([src/components/ChatInterface.tsx]) *)

Module ChatInterface.

Inductive Role := user | model.

Record ChatMessage := {
  msg_id : string;
  role : Role;
  text : string;
  timestamp : Z
}.

(** An entry of the history: [{ role, parts: [{ text }] }]. *)
Record Content := {
  content_role : Role;
  parts : list string
}.

(** What [sendChatMessage] does: it rejects, or it resolves to the text of
    the response, which may be missing. *)
Inductive ChatOutcome :=
| ChatRejected
| ChatResponded (responseText : option string).

Record State := {
  messages : list ChatMessage;
  input : string;
  isLoading : bool
}.



Section Send.
(** The chat service of [geminiService.ts], the rendering of a number by
    [toString], and the two readings of the clock. *)
Variable sendChatMessage : list Content → string → ChatOutcome.
Variable toString : Z → string.
Variable now later : Z.

End Send.

End ChatInterface.

(** ** The application shell ([src/App.tsx]) *)

Module App.

(** The values [view] takes in [App.tsx]. *)
Inductive ViewState :=
| landing | login | signup | dashboard | upload | report | chat.

Record State := {
  isAuthenticated : bool;
  view : ViewState;
  isChatOpen : bool;
  analysisReport : option AnalysisReport;
  isAnalyzing : bool;
  consultContext : option string
}.

Definition initialState : State :=
  {| isAuthenticated := false; view := landing; isChatOpen := false;
     analysisReport := None; isAnalyzing := false; consultContext := None |}.

Definition setView (v : ViewState) (st : State) : State :=
  {| isAuthenticated := isAuthenticated st; view := v;
     isChatOpen := isChatOpen st; analysisReport := analysisReport st;
     isAnalyzing := isAnalyzing st; consultContext := consultContext st |}.

Definition handleConsult (context : string) (st : State) : State :=
  {| isAuthenticated := isAuthenticated st; view := view st;
     isChatOpen := true; analysisReport := analysisReport st;
     isAnalyzing := isAnalyzing st; consultContext := Some context |}.

Definition handleLogin (st : State) : State :=
  {| isAuthenticated := true; view := dashboard;
     isChatOpen := isChatOpen st; analysisReport := analysisReport st;
     isAnalyzing := isAnalyzing st; consultContext := consultContext st |}.

Definition handleLogout (st : State) : State :=
  {| isAuthenticated := false; view := landing;
     isChatOpen := isChatOpen st; analysisReport := None;
     isAnalyzing := isAnalyzing st; consultContext := consultContext st |}.

(** The item "New Analysis" of the sidebar. *)
Definition newAnalysis (st : State) : State :=
  {| isAuthenticated := isAuthenticated st; view := upload;
     isChatOpen := isChatOpen st; analysisReport := None;
     isAnalyzing := isAnalyzing st; consultContext := consultContext st |}.

(** [handleFileUpload] up to its [await]. *)
Definition uploadStarted (st : State) : State :=
  {| isAuthenticated := isAuthenticated st; view := report;
     isChatOpen := isChatOpen st; analysisReport := analysisReport st;
     isAnalyzing := true; consultContext := consultContext st |}.

(** [handleFileUpload] after its [await]: the [try], [catch] and [finally]
    blocks, on the settled promise. *)
Definition uploadSettled (result : JS.Completion AnalysisReport) (st : State)
  : State :=
  {| isAuthenticated := isAuthenticated st; view := view st;
     isChatOpen := isChatOpen st;
     analysisReport :=
       match result with
       | JS.Normal r => Some r
       | JS.Throw _ => analysisReport st
       end;
     isAnalyzing := false; consultContext := consultContext st |}.

Section Upload.
Variable JSON_parse : string → JS.Completion GeminiService.ReportData.
Variable now : string.

(** [handleFileUpload] when no other event arrives while the analysis is
    pending. *)
Definition handleFileUpload (outcome : GeminiService.ProviderOutcome)
    (file : FileUpload.File) (base64 : string) (st : State) : State :=
  uploadSettled
    (GeminiService.analyzeDrawingImage JSON_parse now outcome base64
       (FileUpload.file_name file))
    (uploadStarted st).
End Upload.

(** What the main area shows. *)
Inductive Screen :=
| LandingPage | LoginPage | SignUpPage
| Dashboard | Upload | Analyzing
| Report (r : AnalysisReport)
| Nothing.

Definition screen (st : State) : Screen :=
  if negb (isAuthenticated st) then
    match view st with
    | login => LoginPage
    | signup => SignUpPage
    | _ => LandingPage
    end
  else
    match view st with
    | dashboard => Dashboard
    | upload => Upload
    | report =>
        if isAnalyzing st then Analyzing
        else match analysisReport st with
             | Some r => Report r
             | None => Nothing
             end
    | _ => Nothing
    end.

(** The label of the report in the sidebar. *)
Definition reportLabel (r : AnalysisReport) : string :=
  if Nat.ltb 15 (String.length (fileName r))
  then String.append (String.substring 0 15 (fileName r)) "..."
  else fileName r.

End App.

(** ** The specification's words

    The invariant the specification states for a bounding box: four
    coordinates, each in [0,1], with [ymin < ymax] and [xmin < xmax]. *)
Module Spec.

Definition inUnitInterval (c : float) : bool :=
  ((0 <=? c) && (c <=? 1))%float.

Definition boxInvariant (bb : list float) : bool :=
  match bb with
  | [ymin; xmin; ymax; xmax] =>
      inUnitInterval ymin && inUnitInterval xmin
      && inUnitInterval ymax && inUnitInterval xmax
      && (ymin <? ymax)%float && (xmin <? xmax)%float
  | _ => false
  end.

(** The order of severity the specification gives: FAIL before WARNING
    before NEEDS_CLARIFICATION before PASS. *)
Definition moreSevere (s1 s2 : ComplianceStatus) : bool :=
  match s1, s2 with
  | FAIL, (WARNING | NEEDS_CLARIFICATION | PASS) => true
  | WARNING, (NEEDS_CLARIFICATION | PASS) => true
  | NEEDS_CLARIFICATION, PASS => true
  | _, _ => false
  end.

End Spec.

(** ** Sample data *)

Module Sample.

Definition finding (i cat descr ref : string) (st : ComplianceStatus)
    (bb : option (list float)) : ComplianceFinding :=
  {| id := i; category := cat; description := descr; reference := ref;
     status := st; recommendation := EmptyString; location := None;
     boundingBox := bb |}.

Definition A1 := finding "A1" "Fire" "Exit door swing" "SBC 801" FAIL
                   (Some [0.1; 0.2; 0.3; 0.6]%float).
Definition A2 := finding "A2" "Fire" "Corridor dead end" "SBC 801" WARNING None.
Definition B1 := finding "B1" "Egress" "Stair width" "SBC 201" PASS
                   (Some [0.5; 0.5; 0.7; 0.9]%float).

(** A finding whose box is inverted on both axes. *)
Definition inverted := finding "X1" "Fire" "Hose reel" "SBC 801" FAIL
                         (Some [0.5; 0.5; 0.2; 0.2]%float).

(** A finding without a category. *)
Definition uncategorised :=
  finding "U1" EmptyString "Door width" "SBC 201" WARNING
    (Some [0.2; 0.2; 0.4; 0.4]%float).

(** A finding whose category is the name of an inherited property. *)
Definition shadowed := finding "S1" "constructor" "Slab thickness" "SBC 304"
                         FAIL None.

Definition report (fs : list ComplianceFinding) : AnalysisReport :=
  {| overallScore := 50; scanDate := "2025-01-01T00:00:00.000Z";
     fileName := "plan.png"; findings := fs; summary := EmptyString;
     imageBase64 := None |}.

(** A locale comparison by code units. *)
Definition localeCompare (a b : string) : Z := JS.defaultCompare a b.

(** A parser that rejects every text. *)
Definition noParse (_ : string) : JS.Completion GeminiService.ReportData :=
  JS.Throw JS.SyntaxError.

End Sample.

(** ** Notions used in the statements *)

(** The drawing search accepts a finding: the search is blank, or one of the
    three fields contains the term. *)
Definition searchAccepts (drawingSearch : string) (f : ComplianceFinding) : bool :=
  if JS.truthy (JS.trim drawingSearch) then
    let term := JS.toLowerCase drawingSearch in
    JS.includes (JS.toLowerCase (description f)) term
    || JS.includes (JS.toLowerCase (reference f)) term
    || (JS.truthy (category f)
        && JS.includes (JS.toLowerCase (category f)) term)
  else true.

(** The status filter accepts a finding. *)
Definition statusAccepts (filterStatus : StatusFilter) (f : ComplianceFinding)
  : bool :=
  match filterStatus with
  | ALL => true
  | Only s => bool_decide (status f = s)
  end.

(** The search of the findings list accepts a finding. *)
Definition listSearchAccepts (searchText : string) (f : ComplianceFinding)
  : bool :=
  if JS.truthy (JS.trim searchText) then
    matchesSearch (JS.toLowerCase searchText) f
  else true.

(** The findings of a sequence that belong to the bucket of a category, in
    the order of the sequence. *)
Definition bucketOf (cat : string) (l : list ComplianceFinding)
  : list ComplianceFinding :=
  List.filter (λ f, bool_decide (categoryOrGeneral f = cat)) l.

(** The bucket name of a finding does not collide with a name every object
    inherits. *)
Definition plainCategory (f : ComplianceFinding) : Prop :=
  categoryOrGeneral f ∉ JS.ObjectPrototypeKeys.

(** A string shows ink: one of its characters is not white space. *)
Fixpoint hasInk (s : string) : bool :=
  match s with
  | EmptyString => false
  | String c s' => negb (Ascii.is_space c) || hasInk s'
  end.


(** A character occurs in a string. *)
Fixpoint occurs (c : ascii) (s : string) : bool :=
  match s with
  | EmptyString => false
  | String d s' => Ascii.eqb d c || occurs c s'
  end.

(** An export selection is well formed for the categories of a report: it
    holds no name twice and only names of the report. *)
Definition selectionOk (allCategories exportCategories : list string) : Prop :=
  NoDup exportCategories ∧ ∀ c, c ∈ exportCategories → c ∈ allCategories.

(** ** Properties *)

(** *** Lists and filters *)

Lemma elem_of_List_filter {A} (p : A → bool) (l : list A) (a : A) :
  a ∈ List.filter p l ↔ a ∈ l ∧ p a = true.
Proof. rewrite !list_elem_of_In. apply filter_In. Qed.

Lemma List_filter_sublist {A} (p : A → bool) (l : list A) :
  sublist (List.filter p l) l.
Proof.
  induction l as [|a l IH]; simpl; [constructor|].
  destruct (p a); by constructor.
Qed.

Lemma List_filter_comm {A} (p q : A → bool) (l : list A) :
  List.filter p (List.filter q l) = List.filter q (List.filter p l).
Proof.
  induction l as [|a l IH]; simpl; [done|].
  destruct (q a) eqn:Hq, (p a) eqn:Hp; simpl; rewrite ?Hq, ?Hp, ?IH; done.
Qed.

(** *** Strings *)

Lemma includes_empty_l (t : string) :
  t ≠ EmptyString → JS.includes EmptyString t = false.
Proof. by destruct t. Qed.

Lemma toLowerCase_nonempty (t : string) :
  t ≠ EmptyString → JS.toLowerCase t ≠ EmptyString.
Proof. by destruct t. Qed.

(** *** The visible overlay set *)

Lemma isVisible_spec hiddenLayers drawingSearch f :
  isVisible hiddenLayers drawingSearch f = true ↔
    is_Some (boundingBox f) ∧ (categoryOrGeneral f ∉ hiddenLayers)
    ∧ searchAccepts drawingSearch f = true.
Proof.
  unfold isVisible, searchAccepts.
  destruct (boundingBox f) as [bb|].
  - case_bool_decide as Hh.
    + split; [done|]. intros (_ & Hn & _). done.
    + split; [intros H; split_and!; eauto | by intros (_ & _ & H)].
  - split; [done|]. intros ([? ?] & _); done.
Qed.

Lemma elem_of_visibleDrawingFindings processed hiddenLayers drawingSearch f :
  f ∈ visibleDrawingFindings processed hiddenLayers drawingSearch ↔
    f ∈ processed ∧ is_Some (boundingBox f)
    ∧ (categoryOrGeneral f ∉ hiddenLayers)
    ∧ searchAccepts drawingSearch f = true.
Proof.
  unfold visibleDrawingFindings.
  by rewrite elem_of_List_filter, isVisible_spec.
Qed.

(** C1, as the specification states it, fails: a finding whose box violates
    the invariant is not excluded from the visible overlay set.  The finding
    [Sample.inverted] has [ymin > ymax] and [xmin > xmax] and is visible. *)
Lemma malformed_box_is_visible :
  ¬ (∀ processed hiddenLayers drawingSearch f bb,
       boundingBox f = Some bb → Spec.boxInvariant bb = false →
       f ∉ visibleDrawingFindings processed hiddenLayers drawingSearch).
Proof.
  intros H.
  apply (H [Sample.inverted] ∅ EmptyString Sample.inverted [0.5; 0.5; 0.2; 0.2]%float);
    [reflexivity | reflexivity |].
  vm_compute. apply list_elem_of_here.
Qed.

(** C1, amended: the overlay mapper does not inspect the coordinates.  A
    finding is in the visible overlay set exactly when it is in the processed
    sequence, it has a bounding box (whatever its four numbers), its
    defaulted category is not hidden, and the drawing search accepts it. *)
Theorem visible_overlay_membership processed hiddenLayers drawingSearch f :
  f ∈ visibleDrawingFindings processed hiddenLayers drawingSearch ↔
    f ∈ processed
    ∧ (∃ bb, boundingBox f = Some bb)
    ∧ (categoryOrGeneral f ∉ hiddenLayers)
    ∧ searchAccepts drawingSearch f = true.
Proof.
  unfold visibleDrawingFindings. rewrite elem_of_List_filter.
  unfold isVisible, searchAccepts.
  destruct (boundingBox f) as [bb|].
  - case_bool_decide as Hhidden.
    + split; [by intros [_ ?] | by intros (_ & _ & ? & _)].
    + split; [intros [Hin Hs]; eauto | by intros (Hin & _ & _ & Hs)].
  - split; [by intros [_ ?] | by intros (_ & [? ?] & _)].
Qed.

(** C9: a finding without a bounding box, or whose defaulted category is in
    the hidden-layer set, is not in the visible overlay set, whatever the
    drawing search is: also when the search term matches the finding. *)
Theorem overlay_excludes_boxless_and_hidden
    processed hiddenLayers drawingSearch f :
  boundingBox f = None ∨ categoryOrGeneral f ∈ hiddenLayers →
  f ∉ visibleDrawingFindings processed hiddenLayers drawingSearch.
Proof.
  intros Hex. rewrite elem_of_visibleDrawingFindings.
  intros (_ & [bb Hbb] & Hh & _).
  destruct Hex as [Hnone | Hhid]; [congruence | done].
Qed.

(** The search "corridor" matches [A2], which has no box; the search "exit"
    matches [A1], whose layer is hidden. *)
Lemma overlay_excludes_boxless_and_hidden_witness :
  (searchAccepts "corridor" Sample.A2 = true
   ∧ Sample.A2 ∉ visibleDrawingFindings [Sample.A1; Sample.A2] ∅ "corridor")
  ∧ (searchAccepts "exit" Sample.A1 = true
     ∧ Sample.A1 ∉ visibleDrawingFindings [Sample.A1; Sample.A2] {["Fire"]} "exit").
Proof.
  split; (split; [vm_compute; reflexivity|]).
  - apply (overlay_excludes_boxless_and_hidden
             [Sample.A1; Sample.A2] ∅ "corridor" Sample.A2).
    left. reflexivity.
  - apply (overlay_excludes_boxless_and_hidden
             [Sample.A1; Sample.A2] {["Fire"]} "exit" Sample.A1).
    right. vm_compute. set_solver.
Defined.

(** *** Layer visibility *)

(** C2, as the specification states it, fails: [toggleLayer] does not
    consult the report.  For a report without findings, toggling the unknown
    category "Parking" from the empty set hides it. *)
Lemma toggleLayer_unknown_category_changes_set :
  ¬ (∀ (report : AnalysisReport) (c : string) (hiddenLayers : gset string),
       c ∉ allCategories report → toggleLayer c hiddenLayers = hiddenLayers).
Proof.
  intros H.
  specialize (H (Sample.report []) "Parking" ∅).
  assert (Hin : "Parking" ∈ toggleLayer "Parking" ∅).
  { unfold toggleLayer. rewrite bool_decide_eq_false_2 by apply not_elem_of_empty.
    apply elem_of_union_r. by apply elem_of_singleton. }
  rewrite H in Hin.
  - by apply not_elem_of_empty in Hin.
  - vm_compute. apply not_elem_of_nil.
Qed.

(** C2, amended: for every category name, known to the report or not,
    [toggleLayer] flips the membership of that name in the hidden-layer set
    and leaves the membership of every other name as it was. *)
Theorem toggleLayer_flips_membership (category c : string) (prev : gset string) :
  c ∈ toggleLayer category prev ↔
    (c = category ∧ category ∉ prev) ∨ (c ≠ category ∧ c ∈ prev).
Proof.
  unfold toggleLayer. case_bool_decide as Hin.
  - rewrite elem_of_difference, elem_of_singleton. split.
    + intros [Hc Hne]. right. done.
    + intros [[_ Hn] | [Hne Hc]]; [contradiction | done].
  - rewrite elem_of_union, elem_of_singleton. split.
    + intros [Hc | ->]; [right | left; done].
      split; [intros ->; contradiction | done].
    + intros [[-> _] | [_ Hc]]; [by right | by left].
Qed.

(** *** The analysis service *)

Import GeminiService.

(** Whatever the provider does, the promise resolves: [analyzeDrawingImage]
    never rejects. *)
Lemma analyzeDrawingImage_resolves JSON_parse now outcome base64Image fileName :
  ∃ report,
    analyzeDrawingImage JSON_parse now outcome base64Image fileName
    = JS.Normal report.
Proof.
  unfold analyzeDrawingImage.
  destruct (tryAnalyze _ _ _ _ _); eauto.
Qed.

Lemma tryAnalyze_fails JSON_parse now outcome base64Image fileName :
  providerFails outcome →
  tryAnalyze JSON_parse now outcome base64Image fileName
  = JS.Throw JS.OtherError.
Proof.
  destruct outcome as [|text]; simpl; [done|].
  by intros ->.
Qed.

(** C5: when the provider fails (it throws or rejects, or its response has
    no text), [analyzeDrawingImage] resolves to a report with score 0 and
    exactly one finding, of status FAIL and category "System", with the box
    [0.1, 0.1, 0.9, 0.9]; nothing is thrown to the caller. *)
Theorem provider_failure_yields_degraded_report
    JSON_parse now outcome base64Image fileName :
  providerFails outcome →
  ∃ report f,
    analyzeDrawingImage JSON_parse now outcome base64Image fileName
    = JS.Normal report
    ∧ overallScore report = 0%float
    ∧ findings report = [f]
    ∧ status f = FAIL
    ∧ category f = "System"
    ∧ boundingBox f = Some [0.1; 0.1; 0.9; 0.9]%float.
Proof.
  intros Hfail. unfold analyzeDrawingImage.
  rewrite tryAnalyze_fails by done.
  eexists _, _. split; [reflexivity|]. simpl. split_and!; reflexivity.
Qed.

Lemma provider_failure_yields_degraded_report_witness :
  ∃ report f,
    analyzeDrawingImage Sample.noParse "2025-01-01T00:00:00.000Z"
      (Responded (Some EmptyString)) "aGVsbG8=" "plan.png"
    = JS.Normal report
    ∧ overallScore report = 0%float
    ∧ findings report = [f]
    ∧ status f = FAIL
    ∧ category f = "System"
    ∧ boundingBox f = Some [0.1; 0.1; 0.9; 0.9]%float.
Proof.
  apply (provider_failure_yields_degraded_report Sample.noParse
           "2025-01-01T00:00:00.000Z" (Responded (Some EmptyString))
           "aGVsbG8=" "plan.png").
  reflexivity.
Defined.

(** *** Overlay geometry *)

Lemma visible_has_box processed hiddenLayers drawingSearch f :
  f ∈ visibleDrawingFindings processed hiddenLayers drawingSearch →
  ∃ bb, boundingBox f = Some bb.
Proof. rewrite elem_of_visibleDrawingFindings. by intros (_ & H & _). Qed.

(** C6: every finding of the visible overlay set, with box
    [ymin, xmin, ymax, xmax], is drawn as the rectangle at
    left [xmin*100], top [ymin*100], of width [(xmax-xmin)*100] and height
    [(ymax-ymin)*100] percent, in binary64 arithmetic; and the box
    [0.1, 0.2, 0.3, 0.6] gives exactly left 20, top 10, width 40, height 20. *)
Theorem overlay_rectangle_geometry :
  (∀ processed hiddenLayers drawingSearch activeFindingId hoveredFindingId f,
     f ∈ visibleDrawingFindings processed hiddenLayers drawingSearch →
     ∃ bb zone,
       boundingBox f = Some bb
       ∧ renderZone activeFindingId hoveredFindingId f = Some zone
       ∧ x (zone_rect zone) = (JS.index bb 1 * 100)%float
       ∧ y (zone_rect zone) = (JS.index bb 0 * 100)%float
       ∧ width (zone_rect zone)
         = ((JS.index bb 3 - JS.index bb 1) * 100)%float
       ∧ height (zone_rect zone)
         = ((JS.index bb 2 - JS.index bb 0) * 100)%float)
  ∧ overlayRect [0.1; 0.2; 0.3; 0.6]%float
    = {| x := 20; y := 10; width := 40; height := 20 |}.
Proof.
  split; [|vm_compute; reflexivity].
  intros processed hiddenLayers drawingSearch a h f Hvis.
  destruct (visible_has_box _ _ _ _ Hvis) as [bb Hbb].
  unfold renderZone. rewrite Hbb.
  eexists bb, _. split_and!; reflexivity.
Qed.

Lemma overlay_rectangle_geometry_witness :
  ∃ zone,
    renderZone None (Some "A1") Sample.A1 = Some zone
    ∧ zone_rect zone = {| x := 20; y := 10; width := 40; height := 20 |}.
Proof.
  destruct (proj1 overlay_rectangle_geometry
              [Sample.A1; Sample.A2; Sample.B1] ∅ EmptyString None (Some "A1") Sample.A1)
    as (bb & zone & Hbb & Hz & Hx & Hy & Hw & Hh).
  - vm_compute. apply list_elem_of_here.
  - exists zone. split; [exact Hz|].
    injection Hbb as <-. destruct zone as [k [zx zy zw zh] e p].
    simpl in *. subst. vm_compute. reflexivity.
Defined.

(** C8: for a finding of the visible overlay set that is active or hovered,
    the annotation is anchored at top [ymin*100] and left [xmin*100] percent;
    it is translated downwards when [ymin*100 < 15] and upwards otherwise. *)
Theorem tooltip_placement
    processed hiddenLayers drawingSearch activeFindingId hoveredFindingId f :
  f ∈ visibleDrawingFindings processed hiddenLayers drawingSearch →
  activeFindingId = Some (id f) ∨ hoveredFindingId = Some (id f) →
  ∃ bb tip,
    boundingBox f = Some bb
    ∧ renderTooltip activeFindingId hoveredFindingId f = Some tip
    ∧ tooltip_top tip = (JS.index bb 0 * 100)%float
    ∧ tooltip_left tip = (JS.index bb 1 * 100)%float
    ∧ ((JS.index bb 0 * 100 <? 15)%float = true →
       tooltip_transform tip = Below)
    ∧ ((JS.index bb 0 * 100 <? 15)%float = false →
       tooltip_transform tip = Above).
Proof.
  intros Hvis Hsel.
  destruct (visible_has_box _ _ _ _ Hvis) as [bb Hbb].
  unfold renderTooltip. rewrite Hbb.
  assert (Hshown : negb (bool_decide (activeFindingId = Some (id f)))
                   && negb (bool_decide (hoveredFindingId = Some (id f)))
                   = false).
  { destruct Hsel as [Ha | Hh].
    - by rewrite (bool_decide_eq_true_2 _ Ha).
    - rewrite (bool_decide_eq_true_2 _ Hh). apply andb_false_r. }
  rewrite Hshown. eexists bb, _. split_and!; try reflexivity; simpl.
  - by intros ->.
  - by intros ->.
Qed.

Lemma tooltip_placement_witness :
  (∃ tip, renderTooltip (Some "A1") None Sample.A1 = Some tip
          ∧ tooltip_transform tip = Below)
  ∧ (∃ tip, renderTooltip None (Some "B1") Sample.B1 = Some tip
            ∧ tooltip_transform tip = Above).
Proof.
  split.
  - destruct (tooltip_placement [Sample.A1; Sample.A2; Sample.B1] ∅ EmptyString
                (Some "A1") None Sample.A1)
      as (bb & tip & Hbb & Ht & _ & _ & Hbelow & _).
    + vm_compute. apply list_elem_of_here.
    + left. reflexivity.
    + exists tip. split; [exact Ht|]. apply Hbelow.
      injection Hbb as <-. vm_compute. reflexivity.
  - destruct (tooltip_placement [Sample.A1; Sample.A2; Sample.B1] ∅ EmptyString
                None (Some "B1") Sample.B1)
      as (bb & tip & Hbb & Ht & _ & _ & _ & Habove).
    + vm_compute. apply list_elem_of_further, list_elem_of_here.
    + right. reflexivity.
    + exists tip. split; [exact Ht|]. apply Habove.
      injection Hbb as <-. vm_compute. reflexivity.
Defined.

(** *** Filter and search *)

Lemma elem_of_filterByStatus filterStatus l f :
  f ∈ filterByStatus filterStatus l ↔
    f ∈ l ∧ statusAccepts filterStatus f = true.
Proof.
  destruct filterStatus as [|s].
  - split; [by intros H | by intros [H _]].
  - apply (elem_of_List_filter (λ f, bool_decide (status f = s))).
Qed.

Lemma elem_of_filterBySearch searchText l f :
  f ∈ filterBySearch searchText l ↔
    f ∈ l ∧ listSearchAccepts searchText f = true.
Proof.
  unfold filterBySearch, listSearchAccepts.
  destruct (JS.truthy (JS.trim searchText)).
  - apply elem_of_List_filter.
  - split; [by intros H | by intros [H _]].
Qed.

Lemma filterByStatus_sublist filterStatus l :
  sublist (filterByStatus filterStatus l) l.
Proof.
  destruct filterStatus; [done | apply List_filter_sublist].
Qed.

Lemma filterBySearch_sublist searchText l :
  sublist (filterBySearch searchText l) l.
Proof.
  unfold filterBySearch.
  destruct (JS.truthy _); [apply List_filter_sublist | done].
Qed.

(** C7: the status filter and the search filter commute, their composition
    keeps exactly the findings of the input that pass both, and it keeps
    them in the relative order of the input. *)
Theorem status_and_search_filters_commute filterStatus searchText l :
  filterBySearch searchText (filterByStatus filterStatus l)
  = filterByStatus filterStatus (filterBySearch searchText l)
  ∧ (∀ f, f ∈ filterBySearch searchText (filterByStatus filterStatus l) ↔
          f ∈ l ∧ statusAccepts filterStatus f = true
          ∧ listSearchAccepts searchText f = true)
  ∧ sublist (filterBySearch searchText (filterByStatus filterStatus l)) l.
Proof.
  split_and!.
  - unfold filterBySearch.
    destruct (JS.truthy (JS.trim searchText)); [|done].
    destruct filterStatus as [|s]; [done|].
    apply List_filter_comm.
  - intros f. rewrite elem_of_filterBySearch, elem_of_filterByStatus.
    split; [intros [[? ?] ?] | intros (? & ? & ?)]; done.
  - etrans; [apply filterBySearch_sublist | apply filterByStatus_sublist].
Qed.

(** *** The stable sort *)

Section SortFacts.
Context {A : Type} (compareFn : A → A → Z).

Lemma sortInsert_Permutation (a : A) (l : list A) :
  JS.sortInsert compareFn a l ≡ₚ a :: l.
Proof.
  induction l as [|b l IH]; simpl; [done|].
  destruct (compareFn a b <=? 0)%Z; [done|].
  rewrite IH. apply Permutation_swap.
Qed.

Lemma sort_Permutation (l : list A) : JS.sort compareFn l ≡ₚ l.
Proof.
  induction l as [|a l IH]; simpl; [done|].
  by rewrite sortInsert_Permutation, IH.
Qed.

(** Elements selected by [p] compare as equal among themselves: inserting
    does not move an element across them. *)
Lemma filter_sortInsert (p : A → bool) (a : A) (l : list A) :
  (∀ b, p a = true → p b = true → (compareFn a b <= 0)%Z) →
  List.filter p (JS.sortInsert compareFn a l) = List.filter p (a :: l).
Proof.
  intros Heq. induction l as [|b l IH]; [done|].
  cbn [JS.sortInsert]. destruct (compareFn a b <=? 0)%Z eqn:Hab; [done|].
  apply Z.leb_gt in Hab.
  cbn [List.filter] in *. destruct (p b) eqn:Hb.
  - destruct (p a) eqn:Ha.
    + specialize (Heq b eq_refl Hb). lia.
    + by rewrite IH.
  - done.
Qed.

Lemma filter_sort (p : A → bool) (l : list A) :
  (∀ a b, p a = true → p b = true → (compareFn a b <= 0)%Z) →
  List.filter p (JS.sort compareFn l) = List.filter p l.
Proof.
  intros Heq. induction l as [|a l IH]; [done|].
  cbn [JS.sort]. rewrite filter_sortInsert by eauto.
  cbn [List.filter]. by rewrite IH.
Qed.

(** For a comparator that is total and transitive, the result is sorted. *)
Hypothesis compareFn_total :
  ∀ a b, (compareFn a b <= 0)%Z ∨ (compareFn b a <= 0)%Z.
Hypothesis compareFn_trans :
  ∀ a b c, (compareFn a b <= 0)%Z → (compareFn b c <= 0)%Z →
           (compareFn a c <= 0)%Z.

Lemma sortInsert_sorted (a : A) (l : list A) :
  StronglySorted (λ a b, (compareFn a b <= 0)%Z) l →
  StronglySorted (λ a b, (compareFn a b <= 0)%Z) (JS.sortInsert compareFn a l).
Proof.
  induction 1 as [|b l Hs IH Hb]; simpl.
  - repeat constructor.
  - destruct (compareFn a b <=? 0)%Z eqn:Hab.
    + apply Z.leb_le in Hab. constructor; [by constructor|].
      constructor; [done|].
      eapply Forall_impl; [exact Hb|]. intros c Hbc. eauto.
    + apply Z.leb_gt in Hab. constructor; [done|].
      rewrite sortInsert_Permutation. constructor; [|done].
      destruct (compareFn_total a b); [lia | done].
Qed.

Lemma sort_sorted (l : list A) :
  StronglySorted (λ a b, (compareFn a b <= 0)%Z) (JS.sort compareFn l).
Proof.
  induction l as [|a l IH]; simpl; [constructor|].
  by apply sortInsert_sorted.
Qed.
End SortFacts.

(** In a sorted list, an element that must come strictly after another one
    is found at a later index. *)
Lemma StronglySorted_lookup_lt {A} (R : relation A) (l : list A) i j a b :
  StronglySorted R l →
  l !! i = Some a → l !! j = Some b → ¬ R b a → a ≠ b → i < j.
Proof.
  intros Hs Hi Hj Hnot Hne.
  destruct (decide (i < j)) as [|Hge]; [done|]. exfalso.
  destruct (decide (i = j)) as [->|Hij]; [congruence|].
  assert (Hlt : j < i) by lia.
  revert i j Hi Hj Hlt Hge Hij.
  induction Hs as [|c l Hs IH Hc]; intros i j Hi Hj Hlt Hge Hij; [done|].
  destruct j as [|j], i as [|i]; try lia; simpl in *.
  - injection Hj as ->. apply Hnot.
    rewrite Forall_forall in Hc. apply Hc.
    by eapply list_elem_of_lookup_2.
  - apply (IH i j); auto; lia.
Qed.

(** *** Arrays in the store *)

Section StoreFacts.
Context {A : Type}.
Implicit Types (σ : JS.Store A) (l : list A).

Lemma deref_alloc σ l : JS.deref (length σ) (σ ++ [l]) = l.
Proof.
  unfold JS.deref. by rewrite lookup_app_r, Nat.sub_diag by lia.
Qed.

End StoreFacts.

Lemma insert_alloc {A} (σ : JS.Store A) (l l' : list A) :
  <[length σ := l']> (σ ++ [l]) = σ ++ [l'].
Proof.
  rewrite insert_app_r_alt, Nat.sub_diag by lia. done.
Qed.

(** [sort] works in place: called on [report.findings] itself, it would
    reorder the array the report holds. *)
Example Array_sort_in_place :
  JS.Array_sort (compareFindings Sample.localeCompare SEVERITY) 0
    [[Sample.B1; Sample.A1]]
  = (0, [[Sample.A1; Sample.B1]]).
Proof. vm_compute. reflexivity. Qed.

(** [processedFindings] leaves the store as it was, extended by the arrays
    the filters allocate and by the sorted copy, which it returns. *)
Lemma processedFindings_run localeCompare (σ : JS.Store ComplianceFinding)
    reportFindings filterStatus searchText sortBy :
  ∃ temporaries,
    processedFindings localeCompare reportFindings filterStatus searchText
      sortBy σ
    = (length (σ ++ temporaries),
       (σ ++ temporaries)
       ++ [processedList localeCompare (JS.deref reportFindings σ)
             filterStatus searchText sortBy]).
Proof.
  unfold processedFindings, processedList, filterBySearch, filterByStatus.
  unfold mbind, JS.M_bind, mret, JS.M_ret, JS.Array_filter, JS.Array_spread,
    JS.Array_sort, JS.alloc.
  destruct filterStatus as [|s]; destruct (JS.truthy (JS.trim searchText));
    cbv beta iota zeta.
  - eexists [_]. by rewrite !deref_alloc, insert_alloc.
  - exists []. by rewrite app_nil_r, !deref_alloc, insert_alloc.
  - eexists [_; _].
    rewrite !deref_alloc, insert_alloc, <- !(assoc_L (++)). reflexivity.
  - eexists [_]. by rewrite !deref_alloc, insert_alloc.
Qed.

(** *** The severity sort *)

Lemma severity_total localeCompare a b :
  (compareFindings localeCompare SEVERITY a b <= 0)%Z
  ∨ (compareFindings localeCompare SEVERITY b a <= 0)%Z.
Proof. simpl. lia. Qed.

Lemma severity_trans localeCompare a b c :
  (compareFindings localeCompare SEVERITY a b <= 0)%Z →
  (compareFindings localeCompare SEVERITY b c <= 0)%Z →
  (compareFindings localeCompare SEVERITY a c <= 0)%Z.
Proof. simpl. lia. Qed.

Lemma moreSevere_severityOrder s1 s2 :
  Spec.moreSevere s1 s2 = true ↔ (severityOrder s1 < severityOrder s2)%Z.
Proof. destruct s1, s2; simpl; split; (done || lia). Qed.

(** C3: with the key SEVERITY, [processedFindings] returns an array that
    holds the filtered findings (a permutation of them) in which every
    finding of a more severe status stands before every finding of a less
    severe one (FAIL, WARNING, NEEDS_CLARIFICATION, PASS), and in which the
    findings of each status stand in the order they had in the input; no
    array that existed before the call, [report.findings] among them, is
    changed. *)
Theorem severity_sort_stable_and_pure localeCompare
    (σ : list (list ComplianceFinding)) reportFindings filterStatus searchText :
  reportFindings < length σ →
  ∃ result σ',
    processedFindings localeCompare reportFindings filterStatus searchText
      SEVERITY σ = (result, σ')
    ∧ JS.deref result σ'
      ≡ₚ filterBySearch searchText
           (filterByStatus filterStatus (JS.deref reportFindings σ))
    ∧ (∀ i j a b,
         JS.deref result σ' !! i = Some a →
         JS.deref result σ' !! j = Some b →
         Spec.moreSevere (status a) (status b) = true → i < j)
    ∧ (∀ s,
         List.filter (λ f, bool_decide (status f = s)) (JS.deref result σ')
         = List.filter (λ f, bool_decide (status f = s))
             (filterBySearch searchText
                (filterByStatus filterStatus (JS.deref reportFindings σ))))
    ∧ JS.deref reportFindings σ' = JS.deref reportFindings σ
    ∧ (∀ r, r < length σ → σ' !! r = σ !! r).
Proof.
  intros Hr.
  destruct (processedFindings_run localeCompare σ reportFindings filterStatus
              searchText SEVERITY) as [tmp Hrun].
  eexists _, _. split; [exact Hrun|].
  rewrite deref_alloc. unfold processedList.
  assert (Hold : ∀ r, r < length σ →
            ((σ ++ tmp) ++ [JS.sort (compareFindings localeCompare SEVERITY)
               (filterBySearch searchText
                  (filterByStatus filterStatus (JS.deref reportFindings σ)))])
            !! r = σ !! r).
  { intros r Hlt. rewrite <- (assoc_L (++)). by rewrite lookup_app_l. }
  split_and!.
  - apply sort_Permutation.
  - intros i j a b Hi Hj Hsev.
    apply moreSevere_severityOrder in Hsev.
    eapply (StronglySorted_lookup_lt _ _ i j a b); [| exact Hi | exact Hj | |].
    + apply sort_sorted;
        [apply severity_total | apply severity_trans].
    + simpl. lia.
    + intros ->. lia.
  - intros s. apply filter_sort.
    intros a b Ha%bool_decide_eq_true Hb%bool_decide_eq_true.
    simpl. rewrite Ha, Hb. lia.
  - unfold JS.deref. by rewrite Hold.
  - exact Hold.
Qed.

(** *** Grouping *)

Lemma groupFinding_plain groups f :
  plainCategory f →
  groupFinding groups f
  = JS.Normal (<[categoryOrGeneral f :=
                   default [] (groups !! categoryOrGeneral f) ++ [f]]> groups).
Proof.
  intros Hplain. unfold groupFinding, getProperty.
  destruct (groups !! categoryOrGeneral f) as [bucket|] eqn:Hg.
  - by rewrite Hg.
  - rewrite bool_decide_eq_false_2 by done.
    rewrite lookup_insert_eq. by rewrite insert_insert_eq.
Qed.

Lemma groupFinding_inherited groups f :
  ¬ plainCategory f →
  groups !! categoryOrGeneral f = None →
  groupFinding groups f = JS.Throw JS.TypeError.
Proof.
  intros Hin Hg. unfold groupFinding, getProperty. rewrite Hg.
  rewrite bool_decide_eq_true_2; [by rewrite Hg|].
  unfold plainCategory in Hin.
  by destruct (decide (categoryOrGeneral f ∈ JS.ObjectPrototypeKeys)).
Qed.

Lemma bucketOf_cons_eq f l : 
  bucketOf (categoryOrGeneral f) (f :: l) = f :: bucketOf (categoryOrGeneral f) l.
Proof. unfold bucketOf. cbn [List.filter]. by rewrite bool_decide_eq_true_2. Qed.

Lemma bucketOf_cons_ne cat f l :
  categoryOrGeneral f ≠ cat → bucketOf cat (f :: l) = bucketOf cat l.
Proof.
  intros Hne. unfold bucketOf. cbn [List.filter].
  by rewrite bool_decide_eq_false_2.
Qed.

Lemma forEachFinding_plain l groups :
  Forall plainCategory l →
  ∃ groups',
    forEachFinding l groups = JS.Normal groups'
    ∧ ∀ cat,
        groups' !! cat
        = match bucketOf cat l with
          | [] => groups !! cat
          | _ :: _ => Some (default [] (groups !! cat) ++ bucketOf cat l)
          end.
Proof.
  intros Hplain. revert groups.
  induction Hplain as [|f l Hf Hl IH]; intros groups.
  - exists groups. done.
  - cbn [forEachFinding]. rewrite groupFinding_plain by done.
    destruct (IH (<[categoryOrGeneral f :=
                      default [] (groups !! categoryOrGeneral f) ++ [f]]> groups))
      as (groups' & Hrun & Hget).
    exists groups'. split; [done|]. intros cat. rewrite Hget.
    destruct (decide (categoryOrGeneral f = cat)) as [<-|Hne].
    + rewrite bucketOf_cons_eq, lookup_insert_eq. simpl.
      destruct (bucketOf (categoryOrGeneral f) l); simpl.
      * done.
      * by rewrite <- (assoc_L (++)).
    + rewrite bucketOf_cons_ne, lookup_insert_ne by done. done.
Qed.

(** When every bucket name is plain, grouping succeeds and the bucket of a
    category holds exactly the findings of that category, in the order of
    the input; categories without findings have no bucket. *)
Lemma groupedFindings_partition l :
  Forall plainCategory l →
  ∃ groups,
    groupedFindings l = JS.Normal groups
    ∧ ∀ cat,
        groups !! cat
        = match bucketOf cat l with
          | [] => None
          | _ :: _ => Some (bucketOf cat l)
          end.
Proof.
  intros Hplain.
  destruct (forEachFinding_plain l ∅ Hplain) as (groups & Hrun & Hget).
  exists groups. split; [done|]. intros cat.
  rewrite Hget, lookup_empty. done.
Qed.

(** Grouping succeeds only when every bucket name is plain. *)
Lemma forEachFinding_Normal l groups groups' :
  (∀ k, k ∈ JS.ObjectPrototypeKeys → groups !! k = None) →
  forEachFinding l groups = JS.Normal groups' →
  Forall plainCategory l.
Proof.
  revert groups. induction l as [|f l IH]; intros groups Hinv Hrun; [done|].
  cbn [forEachFinding] in Hrun.
  destruct (decide (plainCategory f)) as [Hf|Hf].
  - rewrite groupFinding_plain in Hrun by done.
    constructor; [done|]. eapply IH; [|exact Hrun].
    intros k Hk. rewrite lookup_insert_ne; [by apply Hinv|].
    intros Heq. apply Hf. by rewrite Heq.
  - rewrite groupFinding_inherited in Hrun; [done | done |].
    apply Hinv. unfold plainCategory in Hf.
    by destruct (decide (categoryOrGeneral f ∈ JS.ObjectPrototypeKeys)).
Qed.

Lemma groupedFindings_Normal l groups :
  groupedFindings l = JS.Normal groups → Forall plainCategory l.
Proof.
  apply forEachFinding_Normal. intros k _. apply lookup_empty.
Qed.

Lemma elem_of_bucketOf cat l f :
  f ∈ bucketOf cat l ↔ f ∈ l ∧ categoryOrGeneral f = cat.
Proof.
  unfold bucketOf. rewrite elem_of_List_filter.
  by rewrite bool_decide_eq_true.
Qed.

(** *** The navigation list *)

Lemma defaultCompare_le a b :
  (JS.defaultCompare a b <= 0)%Z ↔ String.le a b.
Proof.
  unfold JS.defaultCompare, String.le, String.leb.
  destruct (a ?= b)%string; simpl; split; (done || lia).
Qed.

Lemma defaultCompare_total a b :
  (JS.defaultCompare a b <= 0)%Z ∨ (JS.defaultCompare b a <= 0)%Z.
Proof. rewrite !defaultCompare_le. apply (total String.le). Qed.

Lemma defaultCompare_trans a b c :
  (JS.defaultCompare a b <= 0)%Z → (JS.defaultCompare b c <= 0)%Z →
  (JS.defaultCompare a c <= 0)%Z.
Proof. rewrite !defaultCompare_le. apply transitivity. Qed.

Lemma StronglySorted_mono {A} (R S : relation A) (l : list A) :
  (∀ a b, R a b → S a b) → StronglySorted R l → StronglySorted S l.
Proof.
  intros HRS. induction 1 as [|a l Hs IH Ha]; constructor; [done|].
  eapply Forall_impl; [exact Ha | auto].
Qed.

Lemma sort_defaultCompare_sorted l :
  StronglySorted String.le (JS.sort JS.defaultCompare l).
Proof.
  eapply StronglySorted_mono;
    [| apply sort_sorted; [apply defaultCompare_total | apply defaultCompare_trans]].
  intros a b. apply defaultCompare_le.
Qed.

Lemma categories_sorted groups : StronglySorted String.le (categories groups).
Proof. apply sort_defaultCompare_sorted. Qed.

Lemma elem_of_categories groups cat :
  cat ∈ categories groups ↔ is_Some (groups !! cat).
Proof.
  unfold categories. rewrite sort_Permutation, elem_of_elements.
  apply elem_of_dom.
Qed.

Lemma categories_NoDup groups : NoDup (categories groups).
Proof.
  unfold categories. rewrite sort_Permutation. apply NoDup_elements.
Qed.

(** For a sequence whose bucket names are all plain, grouping is a partition
    in the order of the input, and the navigation list holds each name that
    occurs once, in ascending order of code units. *)
Lemma grouping_of_plain_categories l :
  Forall plainCategory l →
  ∃ groups,
    groupedFindings l = JS.Normal groups
    ∧ (∀ cat, groups !! cat
              = match bucketOf cat l with
                | [] => None
                | _ :: _ => Some (bucketOf cat l)
                end)
    ∧ StronglySorted String.le (categories groups)
    ∧ NoDup (categories groups)
    ∧ (∀ cat, cat ∈ categories groups ↔
              ∃ f, f ∈ l ∧ categoryOrGeneral f = cat).
Proof.
  intros Hplain.
  destruct (groupedFindings_partition l Hplain) as (groups & Hrun & Hget).
  exists groups. split_and!; [done | done | apply categories_sorted
                             | apply categories_NoDup |].
  intros cat. rewrite elem_of_categories, Hget.
  destruct (bucketOf cat l) as [|f bucket] eqn:Hb.
  - split; [by intros [? ?]|]. intros (f & Hf & Hcat).
    assert (Hin : f ∈ bucketOf cat l) by by apply elem_of_bucketOf.
    rewrite Hb in Hin. by apply not_elem_of_nil in Hin.
  - split; [intros _ | by eauto].
    exists f. apply elem_of_bucketOf. rewrite Hb. apply list_elem_of_here.
Qed.

(** The scenario of the specification: three findings in two categories. *)
Example grouping_scenario :
  processedList Sample.localeCompare [Sample.A1; Sample.A2; Sample.B1]
    ALL EmptyString SEVERITY = [Sample.A1; Sample.A2; Sample.B1]
  ∧ ∃ groups,
      groupedFindings [Sample.A1; Sample.A2; Sample.B1] = JS.Normal groups
      ∧ groups !! "Fire" = Some [Sample.A1; Sample.A2]
      ∧ groups !! "Egress" = Some [Sample.B1]
      ∧ categories groups = ["Egress"; "Fire"].
Proof.
  split; [vm_compute; reflexivity|].
  eexists. split; [reflexivity|]. split_and!; vm_compute; reflexivity.
Qed.

(** C4 does not hold for every sequence: the object literal that holds the
    buckets inherits the properties of [Object.prototype], so for a finding
    whose category is "constructor" the test [!groups[cat]] finds the
    inherited function, no bucket is created, and [push] is called on a
    value that has none.  Grouping throws instead of producing buckets. *)
Theorem groupedFindings_inherited_category_throws :
  groupedFindings [Sample.A1; Sample.shadowed; Sample.B1]
  = JS.Throw JS.TypeError.
Proof. vm_compute. reflexivity. Qed.

(** *** Search and the "General" bucket *)

(** C10: the search of the findings list reads the raw category.  For a
    finding whose category is the empty string and a non-empty search term,
    the category never matches, so the finding passes the search only
    through its description or its reference; grouping nevertheless puts
    the finding into the bucket "General" whenever it produces buckets. *)
Theorem empty_category_is_not_searched_as_General f searchText :
  category f = EmptyString → searchText ≠ EmptyString →
  JS.includes (JS.toLowerCase (category f)) (JS.toLowerCase searchText) = false
  ∧ matchesSearch (JS.toLowerCase searchText) f
    = JS.includes (JS.toLowerCase (description f)) (JS.toLowerCase searchText)
      || JS.includes (JS.toLowerCase (reference f)) (JS.toLowerCase searchText)
  ∧ categoryOrGeneral f = "General"
  ∧ ∀ l groups,
      f ∈ l → groupedFindings l = JS.Normal groups →
      ∃ bucket, groups !! "General" = Some bucket ∧ f ∈ bucket.
Proof.
  intros Hcat Hterm.
  assert (Hmiss : JS.includes (JS.toLowerCase (category f))
                    (JS.toLowerCase searchText) = false).
  { rewrite Hcat. apply includes_empty_l. by apply toLowerCase_nonempty. }
  assert (Hgen : categoryOrGeneral f = "General").
  { unfold categoryOrGeneral. by rewrite Hcat. }
  split_and!; [done | | done |].
  - unfold matchesSearch. rewrite Hmiss. apply orb_false_r.
  - intros l groups Hin Hrun.
    destruct (groupedFindings_partition l (groupedFindings_Normal l groups Hrun))
      as (groups' & Hrun' & Hget).
    assert (groups' = groups) as -> by congruence.
    assert (Hb : f ∈ bucketOf "General" l) by by apply elem_of_bucketOf.
    exists (bucketOf "General" l). split; [|done].
    rewrite Hget. destruct (bucketOf "General" l); [|done].
    by apply not_elem_of_nil in Hb.
Qed.

(** The search "general" drops the finding without a category, which
    grouping shows under "General". *)
Lemma empty_category_is_not_searched_as_General_witness :
  filterBySearch "general" [Sample.uncategorised] = []
  ∧ ∃ bucket,
      groupedFindings [Sample.uncategorised]
      = JS.Normal {["General" := bucket]}
      ∧ Sample.uncategorised ∈ bucket.
Proof.
  destruct (empty_category_is_not_searched_as_General
              Sample.uncategorised "general")
    as (_ & Hsearch & _ & Hgroup); [reflexivity | discriminate |].
  split.
  - unfold filterBySearch. simpl JS.truthy. cbv iota zeta.
    cbn [List.filter]. rewrite Hsearch. reflexivity.
  - destruct (Hgroup [Sample.uncategorised] {["General" := [Sample.uncategorised]]})
      as (bucket & Hb & Hin).
    + apply list_elem_of_here.
    + vm_compute. reflexivity.
    + exists bucket. split; [|done].
      rewrite lookup_singleton_eq in Hb. injection Hb as <-.
      vm_compute. reflexivity.
Defined.

(** The findings [B1] (PASS), [A1] (FAIL), [A2] (WARNING) and [inverted]
    (FAIL), held by the only array of a store, sorted by severity. *)
Lemma severity_sort_stable_and_pure_witness :
  0 < length [[Sample.B1; Sample.A1; Sample.A2; Sample.inverted]]
  ∧ ∃ result σ',
      processedFindings Sample.localeCompare 0 ALL EmptyString SEVERITY
        [[Sample.B1; Sample.A1; Sample.A2; Sample.inverted]] = (result, σ')
      ∧ JS.deref result σ'
        = [Sample.A1; Sample.inverted; Sample.A2; Sample.B1]
      ∧ JS.deref 0 σ' = [Sample.B1; Sample.A1; Sample.A2; Sample.inverted].
Proof.
  split; [simpl; lia|].
  destruct (severity_sort_stable_and_pure Sample.localeCompare
              [[Sample.B1; Sample.A1; Sample.A2; Sample.inverted]] 0 ALL EmptyString)
    as (result & σ' & Hrun & _ & _ & _ & Hsame & _); [simpl; lia|].
  exists result, σ'. split; [exact Hrun|]. split; [|exact Hsame].
  vm_compute in Hrun. injection Hrun as <- <-. vm_compute. reflexivity.
Defined.

(** *** The layer menu *)

Lemma elem_of_distinct (xs : list string) (c : string) :
  c ∈ JS.distinct xs ↔ c ∈ xs.
Proof.
  unfold JS.distinct.
  by rewrite elem_of_reverse, elem_of_remove_dups, elem_of_reverse.
Qed.

Lemma elem_of_allCategories report cat :
  cat ∈ allCategories report ↔
    ∃ f, f ∈ findings report ∧ categoryOrGeneral f = cat.
Proof.
  unfold allCategories.
  rewrite sort_Permutation, elem_of_distinct, list_elem_of_fmap.
  split; intros (f & H1 & H2); exists f; done.
Qed.

(** Every button of the layer menu toggles a category of the report. *)
Lemma layerMenu_known_categories report cat handler :
  (cat, handler) ∈ layerMenu report →
  handler = toggleLayer cat
  ∧ ∃ f, f ∈ findings report ∧ categoryOrGeneral f = cat.
Proof.
  unfold layerMenu. rewrite list_elem_of_fmap.
  intros (c & Heq & Hc). injection Heq as -> ->.
  split; [done|]. by apply elem_of_allCategories.
Qed.

(** ** Further properties of the code *)

(** *** White space and letter case *)

Lemma truthy_rev_app s acc :
  JS.truthy (String.rev_app s acc) = JS.truthy s || JS.truthy acc.
Proof.
  revert acc. induction s as [|c s IH]; intros acc; simpl; [done|].
  rewrite IH. simpl. apply orb_true_r.
Qed.

Lemma hasInk_rev_app s acc :
  hasInk (String.rev_app s acc) = hasInk s || hasInk acc.
Proof.
  revert acc. induction s as [|c s IH]; intros acc; simpl; [done|].
  rewrite IH. simpl. destruct (Ascii.is_space c), (hasInk s); simpl; done.
Qed.

Lemma hasInk_rev s : hasInk (String.rev s) = hasInk s.
Proof. unfold String.rev. rewrite hasInk_rev_app. simpl. apply orb_false_r. Qed.

Lemma truthy_rev s : JS.truthy (String.rev s) = JS.truthy s.
Proof. unfold String.rev. rewrite truthy_rev_app. simpl. apply orb_false_r. Qed.

Lemma truthy_trimStart s : JS.truthy (JS.trimStart s) = hasInk s.
Proof.
  induction s as [|c s IH]; simpl; [done|].
  destruct (Ascii.is_space c); simpl; done.
Qed.

Lemma hasInk_trimStart s : hasInk (JS.trimStart s) = hasInk s.
Proof.
  induction s as [|c s IH]; simpl; [done|].
  destruct (Ascii.is_space c) eqn:Hc; simpl; [done|]. by rewrite Hc.
Qed.

(** [s.trim()] is truthy exactly when [s] shows ink. *)
Lemma truthy_trim s : JS.truthy (JS.trim s) = hasInk s.
Proof.
  unfold JS.trim, JS.trimEnd.
  by rewrite truthy_rev, truthy_trimStart, hasInk_rev, hasInk_trimStart.
Qed.

Lemma is_space_lowerChar c :
  Ascii.is_space (JS.lowerChar c) = Ascii.is_space c.
Proof. by destruct c as [[] [] [] [] [] [] [] []]. Qed.

Lemma hasInk_toLowerCase s : hasInk (JS.toLowerCase s) = hasInk s.
Proof.
  induction s as [|c s IH]; simpl; [done|].
  by rewrite is_space_lowerChar, IH.
Qed.


(** *** Searching *)

Lemma filterBySearch_ink searchText l :
  filterBySearch searchText l
  = if hasInk searchText
    then List.filter (matchesSearch (JS.toLowerCase searchText)) l
    else l.
Proof. unfold filterBySearch. by rewrite truthy_trim. Qed.

Lemma hasInk_nonempty s : hasInk s = true → s ≠ EmptyString.
Proof. by destruct s. Qed.

(** A search text of white space only filters nothing: the list view and
    the overlay are those of the empty search. *)
Theorem blank_search_is_inactive localeCompare l filterStatus sortBy
    hidden searchText :
  hasInk searchText = false →
  processedList localeCompare l filterStatus searchText sortBy
  = processedList localeCompare l filterStatus EmptyString sortBy
  ∧ visibleDrawingFindings l hidden searchText
    = visibleDrawingFindings l hidden EmptyString.
Proof.
  intros Hblank. split.
  - unfold processedList. by rewrite !filterBySearch_ink, Hblank.
  - unfold visibleDrawingFindings. apply filter_ext. intros f.
    unfold isVisible. by rewrite !truthy_trim, Hblank.
Qed.

Lemma blank_search_is_inactive_witness :
  processedList Sample.localeCompare [Sample.B1; Sample.A1] ALL "  " SEVERITY
  = [Sample.A1; Sample.B1]
  ∧ visibleDrawingFindings [Sample.B1; Sample.A1] ∅ "  "
    = [Sample.B1; Sample.A1].
Proof.
  destruct (blank_search_is_inactive Sample.localeCompare
              [Sample.B1; Sample.A1] ALL SEVERITY ∅ "  ") as [Hp Hv];
    [reflexivity|].
  rewrite Hp, Hv. split; vm_compute; reflexivity.
Defined.

(** The search ignores the letter case of the term: two terms with the same
    lower-case form select the same findings, in the list and on the
    drawing. *)
Theorem search_ignores_case_of_term l hidden term1 term2 :
  JS.toLowerCase term1 = JS.toLowerCase term2 →
  filterBySearch term1 l = filterBySearch term2 l
  ∧ visibleDrawingFindings l hidden term1
    = visibleDrawingFindings l hidden term2.
Proof.
  intros Hlow.
  assert (Hink : hasInk term1 = hasInk term2).
  { by rewrite <- (hasInk_toLowerCase term1), Hlow, hasInk_toLowerCase. }
  split.
  - by rewrite !filterBySearch_ink, Hink, Hlow.
  - unfold visibleDrawingFindings. apply filter_ext. intros f.
    unfold isVisible. by rewrite !truthy_trim, Hink, Hlow.
Qed.

Lemma search_ignores_case_of_term_witness :
  filterBySearch "STAIR" [Sample.A1; Sample.A2; Sample.B1] = [Sample.B1]
  ∧ filterBySearch "stair" [Sample.A1; Sample.A2; Sample.B1] = [Sample.B1].
Proof.
  destruct (search_ignores_case_of_term [Sample.A1; Sample.A2; Sample.B1]
              ∅ "STAIR" "stair") as [Hf _]; [reflexivity|].
  rewrite Hf. split; vm_compute; reflexivity.
Defined.

(** The search of the drawing and the search of the list accept the same
    findings: the guard [f.category &&] of the drawing search only rejects
    an empty category, which no active search term matches anyway. *)
Theorem drawing_search_agrees_with_list_search searchText f :
  searchAccepts searchText f = listSearchAccepts searchText f.
Proof.
  unfold searchAccepts, listSearchAccepts, matchesSearch.
  rewrite truthy_trim. destruct (hasInk searchText) eqn:Hink; [|done].
  f_equal. destruct (category f) as [|c cat] eqn:Hcat; [|done].
  simpl JS.truthy. rewrite andb_false_l. symmetry.
  apply includes_empty_l, toLowerCase_nonempty. by apply hasInk_nonempty.
Qed.

(** *** Layers *)

Lemma toggleLayer_elem_of (category c : string) (prev : gset string) :
  c ∈ toggleLayer category prev ↔
    (c = category ∧ category ∉ prev) ∨ (c ≠ category ∧ c ∈ prev).
Proof.
  unfold toggleLayer. case_bool_decide as Hin.
  - rewrite elem_of_difference, elem_of_singleton. split.
    + intros [Hc Hne]. right. done.
    + intros [[_ Hn] | [Hne Hc]]; [contradiction | done].
  - rewrite elem_of_union, elem_of_singleton. split.
    + intros [Hc | ->]; [right | left; done].
      split; [intros ->; contradiction | done].
    + intros [[-> _] | [_ Hc]]; [by right | by left].
Qed.

(** Toggling a layer twice gives back the hidden-layer set, and toggles of
    two layers can be made in either order. *)
Theorem toggleLayer_involutive_and_commutative (a b : string) (prev : gset string) :
  toggleLayer a (toggleLayer a prev) = prev
  ∧ toggleLayer a (toggleLayer b prev) = toggleLayer b (toggleLayer a prev).
Proof.
  split; apply set_eq; intros c; rewrite !toggleLayer_elem_of.
  - destruct (decide (c = a)) as [->|Hca]; destruct (decide (a ∈ prev)); tauto.
  - destruct (decide (c = a)) as [->|Hca]; destruct (decide (a = b)) as [->|Hab];
      try (destruct (decide (c = b)) as [->|Hcb]);
      destruct (decide (b ∈ prev)); try destruct (decide (a ∈ prev)); tauto.
Qed.

Lemma List_filter_filter {A} (p q : A → bool) (l : list A) :
  List.filter p (List.filter q l) = List.filter (λ a, q a && p a) l.
Proof.
  induction l as [|a l IH]; simpl; [done|].
  destruct (q a); simpl; [destruct (p a)|]; by rewrite IH.
Qed.

Lemma List_filter_sublist_impl {A} (p q : A → bool) (l : list A) :
  (∀ a, p a = true → q a = true) →
  sublist (List.filter p l) (List.filter q l).
Proof.
  intros Himpl. induction l as [|a l IH]; simpl; [constructor|].
  destruct (p a) eqn:Hp.
  - rewrite (Himpl a Hp). by constructor.
  - destruct (q a); [by constructor | done].
Qed.

Lemma isVisible_toggleLayer_other c hidden drawingSearch f :
  categoryOrGeneral f ≠ c →
  isVisible (toggleLayer c hidden) drawingSearch f
  = isVisible hidden drawingSearch f.
Proof.
  intros Hne. unfold isVisible. destruct (boundingBox f); [|done].
  assert (Hiff : categoryOrGeneral f ∈ toggleLayer c hidden
                 ↔ categoryOrGeneral f ∈ hidden).
  { rewrite toggleLayer_elem_of. tauto. }
  by rewrite (bool_decide_ext _ _ Hiff).
Qed.

Lemma isVisible_toggleLayer_hide c hidden drawingSearch f :
  c ∉ hidden → categoryOrGeneral f = c →
  isVisible (toggleLayer c hidden) drawingSearch f = false.
Proof.
  intros Hc Hf. unfold isVisible. destruct (boundingBox f); [|done].
  rewrite bool_decide_eq_true_2; [done|].
  apply toggleLayer_elem_of. left. by rewrite Hf.
Qed.

(** Hiding a layer removes from the overlay exactly the findings of that
    category: the findings of the other categories stay, in their order. *)
Theorem hiding_a_layer_removes_its_findings processed c hidden drawingSearch :
  c ∉ hidden →
  visibleDrawingFindings processed (toggleLayer c hidden) drawingSearch
  = List.filter (λ f, bool_decide (categoryOrGeneral f ≠ c))
      (visibleDrawingFindings processed hidden drawingSearch).
Proof.
  intros Hc. unfold visibleDrawingFindings.
  rewrite List_filter_filter. apply filter_ext. intros f.
  destruct (decide (categoryOrGeneral f = c)) as [Heq|Hne].
  - rewrite isVisible_toggleLayer_hide by done.
    rewrite (bool_decide_eq_false_2 (categoryOrGeneral f ≠ c)) by tauto.
    by rewrite andb_false_r.
  - rewrite isVisible_toggleLayer_other by done.
    rewrite (bool_decide_eq_true_2 (categoryOrGeneral f ≠ c)) by done.
    by rewrite andb_true_r.
Qed.

Lemma hiding_a_layer_removes_its_findings_witness :
  visibleDrawingFindings [Sample.A1; Sample.A2; Sample.B1]
    (toggleLayer "Fire" ∅) EmptyString = [Sample.B1].
Proof.
  rewrite (hiding_a_layer_removes_its_findings
             [Sample.A1; Sample.A2; Sample.B1] "Fire" ∅ EmptyString).
  - vm_compute. reflexivity.
  - apply not_elem_of_empty.
Defined.

Lemma isVisible_mono hidden hidden' drawingSearch f :
  hidden ⊆ hidden' →
  isVisible hidden' drawingSearch f = true →
  isVisible hidden drawingSearch f = true.
Proof.
  intros Hsub. rewrite !isVisible_spec.
  intros (Hbox & Hnot & Hs). split_and!; [done | | done].
  intros Hin. apply Hnot. by apply Hsub.
Qed.

(** The overlay keeps the order of the processed findings, and hiding more
    layers only removes zones: with [hidden ⊆ hidden'], the overlay for
    [hidden'] is a subsequence of the overlay for [hidden], which is a
    subsequence of the processed findings. *)
Theorem overlay_shrinks_with_hidden_layers processed hidden hidden' drawingSearch :
  hidden ⊆ hidden' →
  sublist (visibleDrawingFindings processed hidden' drawingSearch)
    (visibleDrawingFindings processed hidden drawingSearch)
  ∧ sublist (visibleDrawingFindings processed hidden drawingSearch) processed.
Proof.
  intros Hsub. split.
  - apply List_filter_sublist_impl. intros f. by apply isVisible_mono.
  - apply List_filter_sublist.
Qed.

Lemma overlay_shrinks_with_hidden_layers_witness :
  sublist
    (visibleDrawingFindings [Sample.A1; Sample.B1] {["Fire"]} EmptyString)
    (visibleDrawingFindings [Sample.A1; Sample.B1] ∅ EmptyString).
Proof.
  assert (Hsub : (∅ : gset string) ⊆ {["Fire"]}).
  { intros c Hc. by apply not_elem_of_empty in Hc. }
  apply (overlay_shrinks_with_hidden_layers [Sample.A1; Sample.B1]
           ∅ {["Fire"]} EmptyString Hsub).
Defined.

(** The Reset button is offered exactly when the layer state is not the
    initial one, and resetting gives the initial state, in which the overlay
    shows every finding that has a box and passes the drawing search. *)
Theorem reset_restores_initial_layers (st : Layers) processed drawingSearch :
  (resetOffered st = false ↔ st = initialLayers)
  ∧ resetLayers st = initialLayers
  ∧ resetOffered (resetLayers st) = false
  ∧ visibleDrawingFindings processed (hiddenLayers (resetLayers st))
      drawingSearch
    = List.filter
        (λ f, bool_decide (is_Some (boundingBox f))
              && searchAccepts drawingSearch f)
        processed.
Proof.
  split_and!; [| done | done |].
  - destruct st as [h b]. unfold resetOffered, initialLayers. simpl.
    rewrite orb_false_iff, Nat.ltb_ge, negb_false_iff. split.
    + intros [Hsize ->]. f_equal.
      assert (Hempty : h ≡ ∅) by (apply size_empty_iff; lia).
      by apply leibniz_equiv in Hempty.
    + intros [= -> ->]. split; [|done]. by rewrite size_empty.
  - simpl. unfold visibleDrawingFindings. apply filter_ext. intros f.
    unfold isVisible, searchAccepts.
    destruct (boundingBox f) as [bb|]; [|done].
    rewrite (bool_decide_eq_false_2 (_ ∈ ∅)) by apply not_elem_of_empty.
    by rewrite (bool_decide_eq_true_2 (is_Some (Some bb))) by eauto.
Qed.

(** *** Sorting *)

Section MoreSortFacts.
Context {A : Type} (compareFn : A → A → Z).

Lemma sortInsert_head (a : A) (l : list A) :
  (∀ b, head l = Some b → (compareFn a b <= 0)%Z) →
  JS.sortInsert compareFn a l = a :: l.
Proof.
  destruct l as [|b l]; [done|]. intros Hhead. simpl.
  by rewrite (proj2 (Z.leb_le _ _) (Hhead b eq_refl)).
Qed.

(** A sorted array is left as it is. *)
Lemma sort_of_sorted (l : list A) :
  StronglySorted (λ a b, (compareFn a b <= 0)%Z) l →
  JS.sort compareFn l = l.
Proof.
  induction 1 as [|a l Hs IH Ha]; [done|].
  simpl. rewrite IH. apply sortInsert_head.
  intros b Hb. destruct l as [|b' l]; [done|].
  injection Hb as <-. by inversion Ha.
Qed.

Hypothesis compareFn_total :
  ∀ a b, (compareFn a b <= 0)%Z ∨ (compareFn b a <= 0)%Z.
Hypothesis compareFn_trans :
  ∀ a b c, (compareFn a b <= 0)%Z → (compareFn b c <= 0)%Z →
           (compareFn a c <= 0)%Z.

Lemma filter_sortInsert_sorted (p : A → bool) (a : A) (l : list A) :
  StronglySorted (λ a b, (compareFn a b <= 0)%Z) l →
  List.filter p (JS.sortInsert compareFn a l)
  = if p a then JS.sortInsert compareFn a (List.filter p l)
    else List.filter p l.
Proof.
  induction 1 as [|b l Hs IH Hb]; [simpl; by destruct (p a)|].
  cbn [JS.sortInsert]. destruct (compareFn a b <=? 0)%Z eqn:Hab.
  - apply Z.leb_le in Hab.
    change (List.filter p (a :: b :: l))
      with (if p a then a :: List.filter p (b :: l)
            else List.filter p (b :: l)).
    destruct (p a); [|done]. symmetry. apply sortInsert_head.
    intros c Hc. apply head_Some_elem_of, elem_of_List_filter in Hc as [Hc _].
    apply elem_of_cons in Hc as [->|Hc]; [done|].
    rewrite Forall_forall in Hb. eauto.
  - cbn [List.filter]. rewrite IH.
    destruct (p b), (p a); cbn [JS.sortInsert]; rewrite ?Hab; done.
Qed.

(** Filtering a sorted result gives what sorting the filtered input gives. *)
Lemma filter_sort_comm (p : A → bool) (l : list A) :
  List.filter p (JS.sort compareFn l) = JS.sort compareFn (List.filter p l).
Proof.
  induction l as [|a l IH]; [done|].
  cbn [JS.sort List.filter].
  rewrite filter_sortInsert_sorted by by apply sort_sorted.
  rewrite IH. by destruct (p a).
Qed.
End MoreSortFacts.

Lemma compareFindings_total localeCompare sortBy :
  (∀ r1 r2, (localeCompare r1 r2 <= 0)%Z ∨ (localeCompare r2 r1 <= 0)%Z) →
  ∀ a b, (compareFindings localeCompare sortBy a b <= 0)%Z
         ∨ (compareFindings localeCompare sortBy b a <= 0)%Z.
Proof. intros Htot a b. destruct sortBy; simpl; [lia | apply Htot | lia]. Qed.

Lemma compareFindings_trans localeCompare sortBy :
  (∀ r1 r2 r3, (localeCompare r1 r2 <= 0)%Z → (localeCompare r2 r3 <= 0)%Z →
               (localeCompare r1 r3 <= 0)%Z) →
  ∀ a b c, (compareFindings localeCompare sortBy a b <= 0)%Z →
           (compareFindings localeCompare sortBy b c <= 0)%Z →
           (compareFindings localeCompare sortBy a c <= 0)%Z.
Proof.
  intros Htr a b c. destruct sortBy; simpl; [lia | apply Htr | lia].
Qed.

(** With the sort option CATEGORY, which the comparator does not handle, the
    findings keep the order of the report. *)
Theorem category_sort_option_keeps_order localeCompare l filterStatus searchText :
  processedList localeCompare l filterStatus searchText CATEGORY
  = filterBySearch searchText (filterByStatus filterStatus l).
Proof.
  unfold processedList.
  generalize (filterBySearch searchText (filterByStatus filterStatus l)).
  intros fs. induction fs as [|a fs IH]; [done|].
  simpl. rewrite IH. by destruct fs.
Qed.

(** For every sort option and whatever [localeCompare] returns, the sort
    neither loses nor duplicates a finding, and [processedFindings] writes
    to no array that existed before the call. *)
Theorem processing_permutes_and_preserves_arrays localeCompare
    (σ : list (list ComplianceFinding)) reportFindings filterStatus searchText
    sortBy :
  ∃ result σ',
    processedFindings localeCompare reportFindings filterStatus searchText
      sortBy σ = (result, σ')
    ∧ JS.deref result σ'
      = processedList localeCompare (JS.deref reportFindings σ)
          filterStatus searchText sortBy
    ∧ JS.deref result σ'
      ≡ₚ filterBySearch searchText
           (filterByStatus filterStatus (JS.deref reportFindings σ))
    ∧ (length σ ≤ result)%nat
    ∧ ∀ r, r < length σ → σ' !! r = σ !! r.
Proof.
  destruct (processedFindings_run localeCompare σ reportFindings filterStatus
              searchText sortBy) as [tmp Hrun].
  eexists _, _. split; [exact Hrun|].
  rewrite deref_alloc. split_and!.
  - done.
  - apply sort_Permutation.
  - rewrite length_app. lia.
  - intros r Hr. rewrite <- (assoc_L (++)). by rewrite lookup_app_l.
Qed.

Lemma processing_permutes_and_preserves_arrays_witness :
  ∃ result σ',
    processedFindings Sample.localeCompare 0 (Only FAIL) "door" REFERENCE
      [[Sample.B1; Sample.A1]] = (result, σ')
    ∧ (0 < result)%nat
    ∧ σ' !! 0 = Some [Sample.B1; Sample.A1].
Proof.
  destruct (processing_permutes_and_preserves_arrays Sample.localeCompare
              [[Sample.B1; Sample.A1]] 0 (Only FAIL) "door" REFERENCE)
    as (result & σ' & Hrun & _ & _ & Hfresh & Hold).
  exists result, σ'. split; [exact Hrun|]. split; [simpl in Hfresh; lia|].
  rewrite Hold; [reflexivity | simpl; lia].
Defined.

(** With a [localeCompare] that is total and transitive, the key REFERENCE
    gives findings in ascending order of reference, and findings with the
    same reference keep the order of the input. *)
Theorem reference_sort_sorted_and_stable localeCompare l filterStatus searchText :
  (∀ r1 r2, (localeCompare r1 r2 <= 0)%Z ∨ (localeCompare r2 r1 <= 0)%Z) →
  (∀ r1 r2 r3, (localeCompare r1 r2 <= 0)%Z → (localeCompare r2 r3 <= 0)%Z →
               (localeCompare r1 r3 <= 0)%Z) →
  StronglySorted
    (λ a b, (localeCompare (reference a) (reference b) <= 0)%Z)
    (processedList localeCompare l filterStatus searchText REFERENCE)
  ∧ ∀ r,
      List.filter (λ f, bool_decide (reference f = r))
        (processedList localeCompare l filterStatus searchText REFERENCE)
      = List.filter (λ f, bool_decide (reference f = r))
          (filterBySearch searchText (filterByStatus filterStatus l)).
Proof.
  intros Htot Htr. unfold processedList. split.
  - apply (sort_sorted (compareFindings localeCompare REFERENCE)).
    + by apply compareFindings_total.
    + by apply compareFindings_trans.
  - intros r. apply filter_sort.
    intros a b Ha%bool_decide_eq_true Hb%bool_decide_eq_true.
    simpl. rewrite Ha, Hb. by destruct (Htot r r).
Qed.

Lemma reference_sort_sorted_and_stable_witness :
  processedList Sample.localeCompare
    [Sample.A1; Sample.B1; Sample.A2] ALL EmptyString REFERENCE
  = [Sample.B1; Sample.A1; Sample.A2]
  ∧ StronglySorted
      (λ a b, (Sample.localeCompare (reference a) (reference b) <= 0)%Z)
      (processedList Sample.localeCompare
         [Sample.A1; Sample.B1; Sample.A2] ALL EmptyString REFERENCE).
Proof.
  split; [vm_compute; reflexivity|].
  apply (reference_sort_sorted_and_stable Sample.localeCompare
           [Sample.A1; Sample.B1; Sample.A2] ALL EmptyString).
  - apply defaultCompare_total.
  - apply defaultCompare_trans.
Defined.

(** The order of the steps does not matter: sorting the report first and
    filtering afterwards gives the list that [processedFindings] builds by
    filtering first, for a total and transitive [localeCompare]. *)
Theorem filters_commute_with_sort localeCompare l filterStatus searchText sortBy :
  (∀ r1 r2, (localeCompare r1 r2 <= 0)%Z ∨ (localeCompare r2 r1 <= 0)%Z) →
  (∀ r1 r2 r3, (localeCompare r1 r2 <= 0)%Z → (localeCompare r2 r3 <= 0)%Z →
               (localeCompare r1 r3 <= 0)%Z) →
  filterBySearch searchText
    (filterByStatus filterStatus
       (JS.sort (compareFindings localeCompare sortBy) l))
  = processedList localeCompare l filterStatus searchText sortBy.
Proof.
  intros Htot Htr. unfold processedList.
  pose proof (compareFindings_total localeCompare sortBy Htot) as Ht.
  pose proof (compareFindings_trans localeCompare sortBy Htr) as Hr.
  assert (Hstatus :
    filterByStatus filterStatus (JS.sort (compareFindings localeCompare sortBy) l)
    = JS.sort (compareFindings localeCompare sortBy)
        (filterByStatus filterStatus l)).
  { destruct filterStatus as [|s]; [done|]. by apply filter_sort_comm. }
  rewrite Hstatus. rewrite !filterBySearch_ink.
  destruct (hasInk searchText); [|done]. by apply filter_sort_comm.
Qed.

Lemma filters_commute_with_sort_witness :
  filterBySearch "sbc 801"
    (filterByStatus (Only FAIL)
       (JS.sort (compareFindings Sample.localeCompare SEVERITY)
          [Sample.B1; Sample.inverted; Sample.A2; Sample.A1]))
  = [Sample.inverted; Sample.A1].
Proof.
  rewrite (filters_commute_with_sort Sample.localeCompare
             [Sample.B1; Sample.inverted; Sample.A2; Sample.A1]
             (Only FAIL) "sbc 801" SEVERITY).
  - vm_compute. reflexivity.
  - apply defaultCompare_total.
  - apply defaultCompare_trans.
Defined.

(** *** Buckets, cards and counters *)

Lemma bucketOf_nil cat : bucketOf cat [] = [].
Proof. done. Qed.

Lemma flat_map_bucketOf_other f l (ks : list string) :
  categoryOrGeneral f ∉ ks →
  flat_map (λ k, bucketOf k (f :: l)) ks = flat_map (λ k, bucketOf k l) ks.
Proof.
  induction ks as [|k ks IH]; [done|].
  rewrite not_elem_of_cons. intros [Hne Hnot]. cbn [flat_map].
  rewrite bucketOf_cons_ne by done. by rewrite IH.
Qed.

Lemma flat_map_bucketOf_cons f l (ks : list string) :
  NoDup ks → categoryOrGeneral f ∈ ks →
  flat_map (λ k, bucketOf k (f :: l)) ks
  ≡ₚ f :: flat_map (λ k, bucketOf k l) ks.
Proof.
  induction 1 as [|k ks Hk Hnd IH]; [by intros ?%elem_of_nil|].
  intros Hin. cbn [flat_map].
  destruct (decide (categoryOrGeneral f = k)) as [<-|Hne].
  - rewrite bucketOf_cons_eq, flat_map_bucketOf_other by done. done.
  - rewrite bucketOf_cons_ne by done.
    apply elem_of_cons in Hin as [Heq|Hin]; [done|].
    rewrite (IH Hin). by rewrite Permutation_middle.
Qed.

(** Laying the buckets of distinct categories side by side gives back the
    sequence, up to the order between categories. *)
Lemma flat_map_bucketOf_Permutation l (ks : list string) :
  NoDup ks → (∀ f, f ∈ l → categoryOrGeneral f ∈ ks) →
  flat_map (λ k, bucketOf k l) ks ≡ₚ l.
Proof.
  intros Hnd. induction l as [|f l IH]; intros Hcover.
  - clear. induction ks as [|k ks IH]; [done|]. simpl. by rewrite IH.
  - rewrite flat_map_bucketOf_cons; [|done|].
    + constructor. apply IH. intros g Hg. apply Hcover. by right.
    + apply Hcover. by left.
Qed.

Lemma filter_bucketOf c k l :
  List.filter (λ f, bool_decide (categoryOrGeneral f = c)) (bucketOf k l)
  = if decide (k = c) then bucketOf c l else [].
Proof.
  unfold bucketOf. rewrite List_filter_filter.
  destruct (decide (k = c)) as [->|Hne].
  - apply filter_ext. intros f. by destruct (bool_decide _).
  - induction l as [|f l IH]; [done|]. cbn [List.filter]. rewrite IH.
    destruct (bool_decide (categoryOrGeneral f = k)) eqn:Hk; [|done].
    apply bool_decide_eq_true in Hk.
    rewrite bool_decide_eq_false_2; [done | congruence].
Qed.

Lemma filter_flat_map_bucketOf c l (ks : list string) :
  NoDup ks → c ∈ ks →
  bucketOf c (flat_map (λ k, bucketOf k l) ks) = bucketOf c l.
Proof.
  induction 1 as [|k ks Hk Hnd IH]; [by intros ?%elem_of_nil|].
  intros Hin. cbn [flat_map]. unfold bucketOf at 1. rewrite List.filter_app.
  rewrite filter_bucketOf.
  assert (Hrest : ∀ ks', c ∉ ks' →
            List.filter (λ f, bool_decide (categoryOrGeneral f = c))
              (flat_map (λ k, bucketOf k l) ks') = []).
  { clear. induction ks' as [|k ks' IH]; [done|].
    rewrite not_elem_of_cons. intros [Hne Hnot]. cbn [flat_map].
    rewrite List.filter_app, filter_bucketOf, (IH Hnot).
    by rewrite decide_False by done. }
  destruct (decide (k = c)) as [->|Hne].
  - rewrite (Hrest ks Hk). apply app_nil_r.
  - apply elem_of_cons in Hin as [Heq|Hin]; [done|].
    cbn [app]. by apply IH.
Qed.

Lemma grouped_lookup_default l groups :
  groupedFindings l = JS.Normal groups →
  ∀ cat, default [] (groups !! cat) = bucketOf cat l.
Proof.
  intros Hrun cat.
  destruct (groupedFindings_partition l (groupedFindings_Normal l groups Hrun))
    as (groups' & Hrun' & Hget).
  assert (groups' = groups) as -> by congruence.
  rewrite Hget. by destruct (bucketOf cat l).
Qed.

Lemma grouped_categories l groups :
  groupedFindings l = JS.Normal groups →
  ∀ cat, cat ∈ categories groups ↔ ∃ f, f ∈ l ∧ categoryOrGeneral f = cat.
Proof.
  intros Hrun cat.
  destruct (grouping_of_plain_categories l
              (groupedFindings_Normal l groups Hrun))
    as (groups' & Hrun' & _ & _ & _ & Hcat).
  assert (groups' = groups) as -> by congruence. apply Hcat.
Qed.

Lemma listCards_bucketOf l groups :
  groupedFindings l = JS.Normal groups →
  listCards groups = flat_map (λ k, bucketOf k l) (categories groups).
Proof.
  intros Hrun. unfold listCards. apply flat_map_ext. intros cat.
  by apply grouped_lookup_default.
Qed.

Lemma groupFinding_error groups f e :
  groupFinding groups f = JS.Throw e → e = JS.TypeError.
Proof.
  unfold groupFinding.
  destruct (getProperty groups (categoryOrGeneral f)) as [bucket| |];
    match goal with
    | |- context [getProperty ?g ?c] => destruct (getProperty g c)
    end; congruence.
Qed.

Lemma forEachFinding_error l groups e :
  forEachFinding l groups = JS.Throw e → e = JS.TypeError.
Proof.
  revert groups. induction l as [|f l IH]; intros groups; [done|].
  cbn [forEachFinding].
  destruct (groupFinding groups f) as [groups'|e'] eqn:Hstep.
  - apply IH.
  - intros [= <-]. by eapply groupFinding_error.
Qed.

(** Grouping returns buckets exactly when no finding has, as its bucket
    name, a name inherited from [Object.prototype]; otherwise it throws, and
    what it throws is a [TypeError]. *)
Theorem grouping_fails_exactly_on_inherited_names l :
  ((∃ groups, groupedFindings l = JS.Normal groups) ↔ Forall plainCategory l)
  ∧ ∀ e, groupedFindings l = JS.Throw e → e = JS.TypeError.
Proof.
  split; [split|].
  - intros [groups Hrun]. by eapply groupedFindings_Normal.
  - intros Hplain.
    destruct (groupedFindings_partition l Hplain) as (groups & Hrun & _).
    by exists groups.
  - apply forEachFinding_error.
Qed.

Lemma grouping_fails_exactly_on_inherited_names_witness :
  groupedFindings [Sample.A1; Sample.shadowed] = JS.Throw JS.TypeError.
Proof.
  destruct (groupedFindings [Sample.A1; Sample.shadowed]) as [groups|e] eqn:Hrun;
    [vm_compute in Hrun; discriminate|].
  f_equal.
  apply (proj2 (grouping_fails_exactly_on_inherited_names
                  [Sample.A1; Sample.shadowed]) e Hrun).
Defined.

(** When grouping returns, a category has a bucket exactly when a processed
    finding has that (defaulted) category, and the bucket holds these
    findings in the order of the processed sequence; no bucket is empty. *)
Theorem buckets_hold_the_findings_of_their_category l groups cat :
  groupedFindings l = JS.Normal groups →
  groups !! cat
  = (if decide (bucketOf cat l = []) then None else Some (bucketOf cat l))
  ∧ (is_Some (groups !! cat) ↔ ∃ f, f ∈ l ∧ categoryOrGeneral f = cat).
Proof.
  intros Hrun.
  destruct (groupedFindings_partition l (groupedFindings_Normal l groups Hrun))
    as (groups' & Hrun' & Hget).
  assert (groups' = groups) as -> by congruence.
  split.
  - rewrite Hget. by destruct (bucketOf cat l).
  - rewrite <- elem_of_categories. by apply grouped_categories.
Qed.

Lemma buckets_hold_the_findings_of_their_category_witness :
  ∃ groups,
    groupedFindings [Sample.B1; Sample.A1; Sample.uncategorised; Sample.A2]
    = JS.Normal groups
    ∧ groups !! "Fire" = Some [Sample.A1; Sample.A2]
    ∧ groups !! "General" = Some [Sample.uncategorised]
    ∧ groups !! "Parking" = None.
Proof.
  destruct (groupedFindings
              [Sample.B1; Sample.A1; Sample.uncategorised; Sample.A2])
    as [groups|e] eqn:Hrun; [|vm_compute in Hrun; discriminate].
  exists groups. split; [done|].
  split_and!;
    match goal with
    | |- _ !! ?c = _ =>
        rewrite (proj1 (buckets_hold_the_findings_of_their_category
                   _ groups c Hrun))
    end; vm_compute; reflexivity.
Defined.

Lemma sum_contents groups :
  sum_list (map snd (contents groups)) = length (listCards groups).
Proof.
  unfold listCards, contents.
  induction (categories groups) as [|k ks IH]; [done|].
  cbn [map flat_map sum_list sum_list_with snd]. rewrite length_app.
  by rewrite <- IH.
Qed.

(** The list view draws every processed finding exactly once: its cards are
    a permutation of the processed sequence, the cards of one category keep
    the order of that sequence, the counts of the contents add up to the
    number of processed findings, and the text "No findings match your
    filters." is shown exactly when there is none. *)
Theorem list_view_shows_every_finding_once l groups :
  groupedFindings l = JS.Normal groups →
  listCards groups ≡ₚ l
  ∧ (∀ cat, bucketOf cat (listCards groups) = bucketOf cat l)
  ∧ sum_list (map snd (contents groups)) = length l
  ∧ (noMatches groups = true ↔ l = []).
Proof.
  intros Hrun.
  pose proof (grouped_categories l groups Hrun) as Hcat.
  pose proof (listCards_bucketOf l groups Hrun) as Hcards.
  assert (Hperm : listCards groups ≡ₚ l).
  { rewrite Hcards. apply flat_map_bucketOf_Permutation.
    - apply categories_NoDup.
    - intros f Hf. apply Hcat. eauto. }
  split_and!.
  - done.
  - intros cat. destruct (decide (cat ∈ categories groups)) as [Hin|Hout].
    + rewrite Hcards. apply filter_flat_map_bucketOf;
        [apply categories_NoDup | done].
    + assert (Hnone : ∀ l', (∀ f, f ∈ l' → f ∈ l) → bucketOf cat l' = []).
      { intros l' Hsub. apply elem_of_nil_inv. intros f Hf.
        apply elem_of_bucketOf in Hf as [Hf Heq].
        apply Hout, Hcat. eauto. }
      rewrite (Hnone l) by done. apply Hnone.
      intros f Hf. by rewrite <- Hperm.
  - rewrite <- (Permutation_length Hperm). apply sum_contents.
  - unfold noMatches. rewrite Nat.eqb_eq. split.
    + intros Hlen. apply nil_length_inv in Hlen.
      apply elem_of_nil_inv. intros f Hf.
      assert (Hin : categoryOrGeneral f ∈ categories groups)
        by (apply Hcat; eauto).
      rewrite Hlen in Hin. by apply elem_of_nil in Hin.
    + intros ->. apply length_zero_iff_nil.
      apply elem_of_nil_inv. intros c Hc.
      apply Hcat in Hc as (f & Hf & _). by apply elem_of_nil in Hf.
Qed.

Lemma list_view_shows_every_finding_once_witness :
  ∃ groups,
    groupedFindings [Sample.B1; Sample.A1; Sample.uncategorised; Sample.A2]
    = JS.Normal groups
    ∧ listCards groups
      ≡ₚ [Sample.B1; Sample.A1; Sample.uncategorised; Sample.A2]
    ∧ bucketOf "Fire" (listCards groups) = [Sample.A1; Sample.A2].
Proof.
  destruct (groupedFindings
              [Sample.B1; Sample.A1; Sample.uncategorised; Sample.A2])
    as [groups|e] eqn:Hrun; [|vm_compute in Hrun; discriminate].
  exists groups. split; [done|].
  destruct (list_view_shows_every_finding_once _ groups Hrun)
    as (Hperm & Hbuckets & _).
  split; [exact Hperm|]. rewrite Hbuckets. vm_compute. reflexivity.
Defined.

(** *** The categories of the report *)

Lemma allCategories_NoDup report : NoDup (allCategories report).
Proof.
  unfold allCategories. rewrite sort_Permutation. unfold JS.distinct.
  rewrite reverse_Permutation. apply NoDup_remove_dups.
Qed.

Lemma allCategories_sorted report :
  StronglySorted String.le (allCategories report).
Proof. apply sort_defaultCompare_sorted. Qed.

Lemma length_bucketOf_pos cat f l :
  f ∈ l → categoryOrGeneral f = cat → 0 < length (bucketOf cat l).
Proof.
  intros Hf Hcat.
  assert (Hin : f ∈ bucketOf cat l) by by apply elem_of_bucketOf.
  destruct (bucketOf cat l); [by apply elem_of_nil in Hin | simpl; lia].
Qed.

(** The layer menu and the export dialog list each category of the report
    once, in ascending order of code units; every listed layer counts at
    least one finding, and the counts add up to the number of findings. *)
Theorem layer_list_partitions_the_findings report :
  StronglySorted String.le (allCategories report)
  ∧ NoDup (allCategories report)
  ∧ (∀ cat, cat ∈ allCategories report ↔
            ∃ f, f ∈ findings report ∧ categoryOrGeneral f = cat)
  ∧ (∀ cat, cat ∈ allCategories report ↔ 0 < layerCount report cat)
  ∧ sum_list (map (layerCount report) (allCategories report))
    = length (findings report).
Proof.
  split_and!.
  - apply allCategories_sorted.
  - apply allCategories_NoDup.
  - apply elem_of_allCategories.
  - intros cat. rewrite elem_of_allCategories. split.
    + intros (f & Hf & Hcat). by eapply length_bucketOf_pos.
    + unfold layerCount. fold (bucketOf cat (findings report)).
      destruct (bucketOf cat (findings report)) as [|f b] eqn:Hb;
        [simpl; lia|]. intros _.
      assert (Hin : f ∈ bucketOf cat (findings report))
        by (rewrite Hb; apply list_elem_of_here).
      apply elem_of_bucketOf in Hin. eauto.
  - rewrite <- (Permutation_length
                 (flat_map_bucketOf_Permutation (findings report)
                    (allCategories report) (allCategories_NoDup report)
                    (λ f Hf, proj2 (elem_of_allCategories report _)
                               (ex_intro _ f (conj Hf eq_refl))))).
    unfold layerCount.
    induction (allCategories report) as [|k ks IH]; [done|].
    cbn [map flat_map sum_list sum_list_with]. rewrite length_app.
    by rewrite <- IH.
Qed.

(** The contents list only names categories of the layer list, and with the
    filter ALL and a blank search it is the layer list itself. *)
Theorem contents_follow_the_layer_list localeCompare report filterStatus
    searchText sortBy groups :
  groupedFindings
    (processedList localeCompare (findings report) filterStatus searchText
       sortBy) = JS.Normal groups →
  (∀ cat, cat ∈ categories groups → cat ∈ allCategories report)
  ∧ (filterStatus = ALL → hasInk searchText = false →
     categories groups = allCategories report).
Proof.
  intros Hrun.
  pose proof (grouped_categories _ groups Hrun) as Hcat.
  assert (Hsub : ∀ f,
    f ∈ processedList localeCompare (findings report) filterStatus
          searchText sortBy → f ∈ findings report).
  { intros f. unfold processedList. rewrite sort_Permutation.
    rewrite elem_of_filterBySearch, elem_of_filterByStatus. tauto. }
  split.
  - intros cat (f & Hf & Heq)%Hcat. apply elem_of_allCategories. eauto.
  - intros -> Hblank.
    apply (StronglySorted_unique String.le);
      [apply categories_sorted | apply allCategories_sorted |].
    apply NoDup_Permutation;
      [apply categories_NoDup | apply allCategories_NoDup |].
    intros cat. rewrite Hcat, elem_of_allCategories.
    unfold processedList. rewrite filterBySearch_ink, Hblank. simpl.
    split; intros (f & Hf & Heq); exists f; split; try done.
    + by rewrite sort_Permutation in Hf.
    + by rewrite sort_Permutation.
Qed.

Lemma contents_follow_the_layer_list_witness :
  ∃ groups,
    groupedFindings
      (processedList Sample.localeCompare
         (findings (Sample.report [Sample.B1; Sample.A1; Sample.A2]))
         ALL EmptyString SEVERITY) = JS.Normal groups
    ∧ categories groups = ["Egress"; "Fire"].
Proof.
  destruct (groupedFindings
              (processedList Sample.localeCompare
                 (findings (Sample.report [Sample.B1; Sample.A1; Sample.A2]))
                 ALL EmptyString SEVERITY))
    as [groups|e] eqn:Hrun; [|vm_compute in Hrun; discriminate].
  exists groups. split; [done|].
  destruct (contents_follow_the_layer_list Sample.localeCompare
              (Sample.report [Sample.B1; Sample.A1; Sample.A2])
              ALL EmptyString SEVERITY groups Hrun) as [_ Heq].
  rewrite Heq by reflexivity. vm_compute. reflexivity.
Defined.

(** The four counters of the header count every finding once: they add up
    to the number of findings; the pie chart leaves out the findings that
    need clarification. *)
Theorem status_counters_add_up report :
  stats_pass (stats report) + stats_fail (stats report)
  + stats_warning (stats report) + stats_info (stats report)
  = length (findings report)
  ∧ sum_list (map snd (data report)) + stats_info (stats report)
    = length (findings report).
Proof.
  assert (Hsum : stats_pass (stats report) + stats_fail (stats report)
                 + stats_warning (stats report) + stats_info (stats report)
                 = length (findings report)).
  { unfold stats, countStatus. simpl.
    induction (findings report) as [|f fs IH]; [done|].
    cbn [List.filter length].
    destruct (status f); simpl; lia. }
  split; [done|]. rewrite <- Hsum. unfold data. simpl. lia.
Qed.

(** *** The export selection *)

Section ToggleFacts.
Context {A : Type} `{EqDecision A}.
Implicit Types (a c : A) (prev : list A).

Lemma elem_of_filter_ne a c prev :
  c ∈ List.filter (λ x, bool_decide (x ≠ a)) prev ↔ c ≠ a ∧ c ∈ prev.
Proof. rewrite elem_of_List_filter, bool_decide_eq_true. tauto. Qed.

Lemma filter_ne_absent a prev :
  a ∉ prev → List.filter (λ x, bool_decide (x ≠ a)) prev = prev.
Proof.
  induction prev as [|x prev IH]; [done|].
  rewrite not_elem_of_cons. intros [Hne Hnot]. cbn [List.filter].
  rewrite bool_decide_eq_true_2 by done. by rewrite IH.
Qed.

Lemma filter_ne_idemp a prev :
  List.filter (λ x, bool_decide (x ≠ a))
    (List.filter (λ x, bool_decide (x ≠ a)) prev)
  = List.filter (λ x, bool_decide (x ≠ a)) prev.
Proof.
  apply filter_ne_absent. rewrite elem_of_filter_ne. tauto.
Qed.
End ToggleFacts.

Lemma elem_of_toggleExportCategory category c prev :
  c ∈ toggleExportCategory category prev ↔
    (c = category ∧ category ∉ prev) ∨ (c ≠ category ∧ c ∈ prev).
Proof.
  unfold toggleExportCategory. case_bool_decide as Hin.
  - rewrite elem_of_filter_ne. split; [tauto|].
    intros [[-> Hn] | H]; [contradiction | done].
  - rewrite elem_of_app, list_elem_of_singleton. split.
    + intros [Hc | ->]; [right | by left].
      split; [intros ->; contradiction | done].
    + intros [[-> _] | [_ Hc]]; [by right | by left].
Qed.

Lemma NoDup_toggleExportCategory category prev :
  NoDup prev → NoDup (toggleExportCategory category prev).
Proof.
  intros Hnd. unfold toggleExportCategory. case_bool_decide as Hin.
  - eapply sublist_NoDup; [exact Hnd | apply List_filter_sublist].
  - apply NoDup_app. split_and!; [done | | apply NoDup_singleton].
    intros c Hc ->%list_elem_of_singleton. contradiction.
Qed.

(** A click on a category or on a status of the export dialog flips the
    membership of that item in the selection and leaves the other items in
    the selection, in their order. *)
Theorem export_toggles_flip_one_item :
  (∀ category c prev,
     (c ∈ toggleExportCategory category prev ↔
        (c = category ∧ category ∉ prev) ∨ (c ≠ category ∧ c ∈ prev))
     ∧ List.filter (λ x, bool_decide (x ≠ category))
         (toggleExportCategory category prev)
       = List.filter (λ x, bool_decide (x ≠ category)) prev)
  ∧ (∀ st s prev,
       (s ∈ toggleExportStatus st prev ↔
          (s = st ∧ st ∉ prev) ∨ (s ≠ st ∧ s ∈ prev))
       ∧ List.filter (λ x, bool_decide (x ≠ st)) (toggleExportStatus st prev)
         = List.filter (λ x, bool_decide (x ≠ st)) prev).
Proof.
  split.
  - intros category c prev. split; [apply elem_of_toggleExportCategory|].
    unfold toggleExportCategory. case_bool_decide as Hin.
    + apply filter_ne_idemp.
    + rewrite List.filter_app. cbn [List.filter].
      rewrite bool_decide_eq_false_2 by tauto. apply app_nil_r.
  - intros st s prev. unfold toggleExportStatus.
    case_bool_decide as Hin; split.
    + rewrite elem_of_filter_ne. split; [tauto|].
      intros [[-> Hn] | H]; [contradiction | done].
    + apply filter_ne_idemp.
    + rewrite elem_of_app, list_elem_of_singleton. split.
      * intros [Hc | ->]; [right | by left].
        split; [intros ->; contradiction | done].
      * intros [[-> _] | [_ Hc]]; [by right | by left].
    + rewrite List.filter_app. cbn [List.filter].
      rewrite bool_decide_eq_false_2 by tauto. apply app_nil_r.
Qed.

(** Two clicks on the same category give back the selection when the
    category was not selected; when it was, they move it to the end of the
    selection (and remove its duplicates). *)
Theorem export_category_toggled_twice category prev :
  toggleExportCategory category (toggleExportCategory category prev)
  = if bool_decide (category ∈ prev)
    then List.filter (λ c, bool_decide (c ≠ category)) prev ++ [category]
    else prev.
Proof.
  unfold toggleExportCategory at 2. case_bool_decide as Hin.
  - unfold toggleExportCategory.
    rewrite bool_decide_eq_false_2; [done|].
    rewrite elem_of_filter_ne. tauto.
  - unfold toggleExportCategory.
    rewrite bool_decide_eq_true_2
      by (apply elem_of_app; right; by apply list_elem_of_singleton).
    rewrite List.filter_app. cbn [List.filter].
    rewrite bool_decide_eq_false_2 by tauto.
    rewrite app_nil_r. by apply filter_ne_absent.
Qed.

(** A selection without duplicates that only names categories of the report
    stays so under the effect, the category buttons and the button "Select
    All" / "Deselect All"; for such a selection the button reads "Deselect
    All" exactly when every category of the report is selected. *)
Theorem export_selection_stays_well_formed report exportCategories category :
  selectionOk (allCategories report) exportCategories →
  category ∈ allCategories report →
  selectionOk (allCategories report)
    (initExportCategories (allCategories report) exportCategories)
  ∧ selectionOk (allCategories report)
      (toggleExportCategory category exportCategories)
  ∧ selectionOk (allCategories report)
      (selectAllClick (allCategories report) exportCategories)
  ∧ (selectAllLabel (allCategories report) exportCategories = "Deselect All"
     ↔ ∀ c, c ∈ allCategories report → c ∈ exportCategories).
Proof.
  intros [Hnd Hsub] Hcat.
  pose proof (allCategories_NoDup report) as Hall.
  assert (Hfull : selectionOk (allCategories report) (allCategories report))
    by (split; [done | tauto]).
  assert (Hnone : selectionOk (allCategories report) [])
    by (split; [constructor | by intros c ?%elem_of_nil]).
  split_and!.
  - unfold initExportCategories. by destruct (_ && _).
  - split; [by apply NoDup_toggleExportCategory|].
    intros c [[-> _] | [_ Hc]]%elem_of_toggleExportCategory; auto.
  - unfold selectAllClick. by destruct (allSelected _ _).
  - unfold selectAllLabel, allSelected.
    destruct (Nat.eqb_spec (length exportCategories)
                (length (allCategories report))) as [Hlen|Hlen].
    + split; [intros _ | done].
      assert (Hperm : exportCategories ≡ₚ allCategories report).
      { apply submseteq_length_Permutation; [by apply NoDup_submseteq | lia]. }
      intros c Hc. by rewrite Hperm.
    + split; [done|]. intros Hcover. exfalso. apply Hlen.
      apply Permutation_length, NoDup_Permutation; [done | done |].
      intros c. split; auto.
Qed.

Lemma export_selection_stays_well_formed_witness :
  selectionOk
    (allCategories (Sample.report [Sample.A1; Sample.B1]))
    (toggleExportCategory "Fire" ["Egress"])
  ∧ selectAllLabel
      (allCategories (Sample.report [Sample.A1; Sample.B1])) ["Egress"]
    ≠ "Deselect All".
Proof.
  assert (Hok : selectionOk
                  (allCategories (Sample.report [Sample.A1; Sample.B1]))
                  ["Egress"]).
  { split; [apply NoDup_singleton|].
    intros c ->%list_elem_of_singleton. vm_compute. apply list_elem_of_here. }
  assert (Hfire : "Fire" ∈ allCategories (Sample.report [Sample.A1; Sample.B1])).
  { vm_compute. apply list_elem_of_further, list_elem_of_here. }
  destruct (export_selection_stays_well_formed
              (Sample.report [Sample.A1; Sample.B1]) ["Egress"] "Fire"
              Hok Hfire) as (_ & Htoggle & _ & Hlabel).
  split; [exact Htoggle|]. vm_compute. discriminate.
Defined.

(** *** Section ids *)





(** *** Zones and annotations *)

Lemma isVisible_has_box hidden drawingSearch f :
  isVisible hidden drawingSearch f = true → is_Some (boundingBox f).
Proof. rewrite isVisible_spec. tauto. Qed.

Lemma zoneOverlay_keys active hovered (l : list ComplianceFinding) :
  Forall (λ f, is_Some (boundingBox f)) l →
  map zone_key (zoneOverlay active hovered l) = map id l.
Proof.
  unfold zoneOverlay. induction 1 as [|f l [bb Hbb] Hl IH]; [done|].
  cbn [omap list_omap]. unfold renderZone at 1. rewrite Hbb.
  cbn [map zone_key]. by rewrite <- IH.
Qed.

Lemma tooltipOverlay_findings active hovered (l : list ComplianceFinding) :
  Forall (λ f, is_Some (boundingBox f)) l →
  map tooltip_finding (tooltipOverlay active hovered l)
  = List.filter
      (λ f, bool_decide (active = Some (id f))
            || bool_decide (hovered = Some (id f))) l.
Proof.
  unfold tooltipOverlay. induction 1 as [|f l [bb Hbb] Hl IH]; [done|].
  cbn [omap list_omap List.filter]. unfold renderTooltip at 1. rewrite Hbb.
  destruct (bool_decide (active = Some (id f))),
    (bool_decide (hovered = Some (id f)));
    cbn [negb andb orb map tooltip_finding]; by rewrite <- IH.
Qed.

Lemma visible_Forall_box processed hidden drawingSearch :
  Forall (λ f, is_Some (boundingBox f))
    (visibleDrawingFindings processed hidden drawingSearch).
Proof.
  apply Forall_forall. intros f Hf.
  apply elem_of_visibleDrawingFindings in Hf. tauto.
Qed.

Lemma length_filter_id_le_1 (x : option string) (l : list ComplianceFinding) :
  NoDup (map id l) →
  (length (List.filter (λ f, bool_decide (x = Some (id f))) l) ≤ 1)%nat.
Proof.
  induction l as [|f l IH]; [simpl; lia|].
  cbn [map]. rewrite NoDup_cons. intros [Hf Hnd]. cbn [List.filter].
  case_bool_decide as Hx; [|by apply IH].
  assert (Hnone : List.filter (λ g, bool_decide (x = Some (id g))) l = []).
  { apply elem_of_nil_inv. intros g Hg.
    apply elem_of_List_filter in Hg as [Hg Hid%bool_decide_eq_true].
    apply Hf. rewrite Hx in Hid. injection Hid as ->.
    by apply (list_elem_of_fmap_2 id). }
  rewrite Hnone. simpl. lia.
Qed.

Lemma length_filter_orb {A} (p q : A → bool) (l : list A) :
  (length (List.filter (λ a, p a || q a) l)
   ≤ length (List.filter p l) + length (List.filter q l))%nat.
Proof.
  induction l as [|a l IH]; [simpl; lia|].
  cbn [List.filter]. destruct (p a), (q a); simpl; lia.
Qed.

(** One rectangle is drawn for each finding of the visible overlay set, in
    the order of that set, keyed by the id of the finding: the number in
    "zones visible" is the number of rectangles on the drawing. *)
Theorem one_zone_per_visible_finding processed hidden drawingSearch
    active hovered :
  map zone_key
    (zoneOverlay active hovered
       (visibleDrawingFindings processed hidden drawingSearch))
  = map id (visibleDrawingFindings processed hidden drawingSearch)
  ∧ length (zoneOverlay active hovered
              (visibleDrawingFindings processed hidden drawingSearch))
    = length (visibleDrawingFindings processed hidden drawingSearch).
Proof.
  pose proof (zoneOverlay_keys active hovered _
                (visible_Forall_box processed hidden drawingSearch)) as Hkeys.
  split; [done|].
  apply (f_equal length) in Hkeys. by rewrite !length_map in Hkeys.
Qed.

(** The annotations drawn are those of the visible findings whose id is the
    active or the hovered one; when the ids of the processed findings are
    distinct there are at most two of them, and none when no finding is
    active or hovered. *)
Theorem annotations_follow_active_and_hovered processed hidden drawingSearch
    active hovered :
  NoDup (map id processed) →
  map tooltip_finding
    (tooltipOverlay active hovered
       (visibleDrawingFindings processed hidden drawingSearch))
  = List.filter
      (λ f, bool_decide (active = Some (id f))
            || bool_decide (hovered = Some (id f)))
      (visibleDrawingFindings processed hidden drawingSearch)
  ∧ (length (tooltipOverlay active hovered
               (visibleDrawingFindings processed hidden drawingSearch)) ≤ 2)%nat
  ∧ tooltipOverlay None None
      (visibleDrawingFindings processed hidden drawingSearch) = [].
Proof.
  intros Hnd.
  pose proof (visible_Forall_box processed hidden drawingSearch) as Hbox.
  assert (Hvis : NoDup
    (map id (visibleDrawingFindings processed hidden drawingSearch))).
  { eapply sublist_NoDup; [exact Hnd|].
    unfold visibleDrawingFindings.
    clear. induction processed as [|f l IH]; [constructor|].
    cbn [List.filter map]. destruct (isVisible _ _ f); by constructor. }
  split_and!.
  - by apply tooltipOverlay_findings.
  - rewrite <- (length_map tooltip_finding), tooltipOverlay_findings by done.
    etrans; [apply length_filter_orb|].
    pose proof (length_filter_id_le_1 active _ Hvis).
    pose proof (length_filter_id_le_1 hovered _ Hvis). lia.
  - pose proof (tooltipOverlay_findings None None _ Hbox) as Hlen.
    apply (f_equal length) in Hlen. rewrite length_map in Hlen. apply length_zero_iff_nil. rewrite Hlen.
    clear. induction (visibleDrawingFindings _ _ _) as [|f l IH]; done.
Qed.

Lemma annotations_follow_active_and_hovered_witness :
  map tooltip_finding
    (tooltipOverlay (Some "A1") (Some "B1")
       (visibleDrawingFindings [Sample.A1; Sample.A2; Sample.B1] ∅ EmptyString))
  = [Sample.A1; Sample.B1].
Proof.
  destruct (annotations_follow_active_and_hovered
              [Sample.A1; Sample.A2; Sample.B1] ∅ EmptyString
              (Some "A1") (Some "B1")) as (Heq & _ & _).
  - vm_compute. repeat constructor; rewrite ?not_elem_of_cons;
      split_and?; (discriminate || apply not_elem_of_nil).
  - rewrite Heq. vm_compute. reflexivity.
Defined.

(** *** The analysis service, continued *)

Lemma analysis_report_carries_the_upload_aux JSON_parse now outcome
    base64Image fileName' :
  ∃ r,
    analyzeDrawingImage JSON_parse now outcome base64Image fileName'
    = JS.Normal r
    ∧ fileName r = fileName'.
Proof.
  unfold analyzeDrawingImage, tryAnalyze.
  destruct outcome as [|text]; [eexists; split; [reflexivity | done]|].
  destruct (hasText text); [|eexists; split; [reflexivity | done]].
  destruct (JSON_parse _); eexists; split; try reflexivity; done.
Qed.

(** Whatever the provider does and whatever the parser yields, the report
    carries the name and the image of the upload and the time of the call. *)
Theorem analysis_report_carries_the_upload JSON_parse now outcome
    base64Image fileName' :
  ∃ r,
    analyzeDrawingImage JSON_parse now outcome base64Image fileName'
    = JS.Normal r
    ∧ fileName r = fileName'
    ∧ imageBase64 r = Some base64Image
    ∧ scanDate r = now.
Proof.
  unfold analyzeDrawingImage, tryAnalyze.
  destruct outcome as [|text]; [eexists; split; [reflexivity | done]|].
  destruct (hasText text); [|eexists; split; [reflexivity | done]].
  destruct (JSON_parse _); eexists; split; try reflexivity; done.
Qed.

(** A response whose text the parser rejects gives the report of a provider
    failure; a response the parser accepts gives the parsed score, summary
    and findings as they are. *)
Theorem parser_decides_between_report_and_fallback JSON_parse now text
    base64Image fileName' :
  JS.truthy text = true →
  (∀ e, JSON_parse text = JS.Throw e →
        analyzeDrawingImage JSON_parse now (Responded (Some text))
          base64Image fileName'
        = JS.Normal (fallbackReport now base64Image fileName'))
  ∧ (∀ d, JSON_parse text = JS.Normal d →
          ∃ r,
            analyzeDrawingImage JSON_parse now (Responded (Some text))
              base64Image fileName' = JS.Normal r
            ∧ overallScore r = data_overallScore d
            ∧ summary r = data_summary d
            ∧ findings r = data_findings d).
Proof.
  intros Htext. unfold analyzeDrawingImage, tryAnalyze, hasText.
  rewrite Htext. simpl. split.
  - by intros e ->.
  - intros d ->. eexists. split; [reflexivity | done].
Qed.

Lemma parser_decides_between_report_and_fallback_witness :
  analyzeDrawingImage Sample.noParse "2025-01-01T00:00:00.000Z"
    (Responded (Some "{oops")) "aGVsbG8=" "plan.png"
  = JS.Normal (fallbackReport "2025-01-01T00:00:00.000Z" "aGVsbG8=" "plan.png").
Proof.
  apply (proj1 (parser_decides_between_report_and_fallback Sample.noParse
                  "2025-01-01T00:00:00.000Z" "{oops" "aGVsbG8=" "plan.png"
                  eq_refl) JS.SyntaxError).
  reflexivity.
Defined.

(** The report of a provider failure goes through the component: its box
    satisfies the invariant of the specification, its finding is counted as
    the only failure, it is the only zone of the overlay and the only card
    of the list, under the category "System". *)
Theorem degraded_report_is_displayed JSON_parse now outcome base64Image
    fileName' localeCompare :
  providerFails outcome →
  ∃ r f bb,
    analyzeDrawingImage JSON_parse now outcome base64Image fileName'
    = JS.Normal r
    ∧ findings r = [f] ∧ boundingBox f = Some bb
    ∧ Spec.boxInvariant bb = true
    ∧ stats r = {| stats_pass := 0; stats_fail := 1; stats_warning := 0;
                   stats_info := 0 |}
    ∧ allCategories r = ["System"]
    ∧ processedList localeCompare (findings r) ALL EmptyString SEVERITY = [f]
    ∧ visibleDrawingFindings [f] ∅ EmptyString = [f]
    ∧ groupedFindings [f] = JS.Normal {["System" := [f]]}.
Proof.
  intros Hfail. unfold analyzeDrawingImage.
  rewrite tryAnalyze_fails by done.
  eexists _, _, _. split; [reflexivity|].
  split; [reflexivity|]. split; [reflexivity|].
  split_and!; vm_compute; reflexivity.
Qed.

Lemma degraded_report_is_displayed_witness :
  ∃ r f,
    analyzeDrawingImage Sample.noParse "2025-01-01T00:00:00.000Z" Rejected
      "aGVsbG8=" "plan.png" = JS.Normal r
    ∧ visibleDrawingFindings (findings r) ∅ EmptyString = [f].
Proof.
  destruct (degraded_report_is_displayed Sample.noParse
              "2025-01-01T00:00:00.000Z" Rejected "aGVsbG8=" "plan.png"
              Sample.localeCompare I)
    as (r & f & bb & Hrun & Hfs & _ & _ & _ & _ & _ & Hvis & _).
  exists r, f. split; [exact Hrun|]. by rewrite Hfs.
Defined.

(** *** The upload control *)

Lemma split_without_separator sep s :
  occurs sep s = false → JS.split sep s = [s].
Proof.
  induction s as [|c s IH]; [done|]. simpl.
  destruct (Ascii.eqb c sep); [done|]. simpl. intros Hs. by rewrite IH.
Qed.

Lemma split_at_first_separator sep prefix rest :
  occurs sep prefix = false →
  JS.split sep (String.append prefix (String sep rest))
  = prefix :: JS.split sep rest.
Proof.
  induction prefix as [|c p IH]; simpl.
  - intros _. by rewrite Ascii.eqb_refl.
  - destruct (Ascii.eqb c sep); [done|]. simpl. intros Hp. by rewrite IH.
Qed.

(** A file that is not a JPEG, PNG or WebP image is refused with a message
    and never uploaded.  An accepted file is uploaded with the text that
    follows the comma of its data URL; a reader result without a comma is
    uploaded as [undefined]. *)
Theorem handleFile_uploads_the_payload file prefix payload :
  (FileUpload.file_type file ∉ FileUpload.validTypes →
   ∀ readerResult,
     FileUpload.handleFile file readerResult
     = {| FileUpload.error := Some FileUpload.demoError;
          FileUpload.uploaded := None |})
  ∧ (FileUpload.file_type file ∈ FileUpload.validTypes →
     occurs "," prefix = false → occurs "," payload = false →
     FileUpload.handleFile file (String.append prefix (String "," payload))
     = {| FileUpload.error := None;
          FileUpload.uploaded := Some (file, Some payload) |}
     ∧ FileUpload.handleFile file prefix
       = {| FileUpload.error := None;
            FileUpload.uploaded := Some (file, None) |}).
Proof.
  unfold FileUpload.handleFile, FileUpload.base64Data. split.
  - intros Hbad readerResult. by rewrite bool_decide_eq_false_2.
  - intros Hok Hprefix Hpayload. rewrite bool_decide_eq_true_2 by done.
    rewrite split_at_first_separator by done.
    by rewrite !split_without_separator.
Qed.

Lemma handleFile_uploads_the_payload_witness :
  FileUpload.handleFile
    {| FileUpload.file_name := "plan.png"; FileUpload.file_type := "image/png" |}
    "data:image/png;base64,aGVsbG8="
  = {| FileUpload.error := None;
       FileUpload.uploaded :=
         Some ({| FileUpload.file_name := "plan.png";
                  FileUpload.file_type := "image/png" |}, Some "aGVsbG8=") |}.
Proof.
  apply (proj2 (handleFile_uploads_the_payload
                  {| FileUpload.file_name := "plan.png";
                     FileUpload.file_type := "image/png" |}
                  "data:image/png;base64" "aGVsbG8=")).
  - vm_compute. apply list_elem_of_further, list_elem_of_here.
  - reflexivity.
  - reflexivity.
Defined.

(** *** The consultant chat *)





(** *** The application shell *)

(** For a signed-in user, an upload shows the loading screen while the
    analysis is pending and then the report screen with a report that bears
    the name of the file, also when the provider fails or the response does
    not parse: the loading state always ends. *)
Theorem upload_ends_on_the_report_screen JSON_parse now outcome file base64
    (st : App.State) :
  App.isAuthenticated st = true →
  App.screen (App.uploadStarted st) = App.Analyzing
  ∧ ∃ r,
      App.screen (App.handleFileUpload JSON_parse now outcome file base64 st)
      = App.Report r
      ∧ analyzeDrawingImage JSON_parse now outcome base64
          (FileUpload.file_name file) = JS.Normal r
      ∧ fileName r = FileUpload.file_name file
      ∧ App.isAnalyzing
          (App.handleFileUpload JSON_parse now outcome file base64 st)
        = false.
Proof.
  intros Hauth. split.
  - unfold App.screen. simpl. by rewrite Hauth.
  - destruct (analysis_report_carries_the_upload_aux JSON_parse now outcome
                base64 (FileUpload.file_name file)) as (r & Hrun & Hname).
    exists r. unfold App.handleFileUpload. rewrite Hrun.
    unfold App.screen. simpl. rewrite Hauth. done.
Qed.

Lemma upload_ends_on_the_report_screen_witness :
  ∃ r,
    App.screen
      (App.handleFileUpload Sample.noParse "2025-01-01T00:00:00.000Z"
         Rejected
         {| FileUpload.file_name := "plan.png";
            FileUpload.file_type := "image/png" |}
         "aGVsbG8=" (App.handleLogin App.initialState))
    = App.Report r
    ∧ fileName r = "plan.png".
Proof.
  destruct (upload_ends_on_the_report_screen Sample.noParse
              "2025-01-01T00:00:00.000Z" Rejected
              {| FileUpload.file_name := "plan.png";
                 FileUpload.file_type := "image/png" |}
              "aGVsbG8=" (App.handleLogin App.initialState) eq_refl)
    as (_ & r & Hscreen & _ & Hname & _).
  by exists r.
Defined.

Lemma length_substring_0 (n : nat) (s : string) :
  (n ≤ String.length s)%nat → String.length (String.substring 0 n s) = n.
Proof.
  revert s. induction n as [|n IH]; intros s Hn.
  - by destruct s.
  - destruct s as [|c s]; simpl in *; [lia|]. rewrite IH; lia.
Qed.

Lemma length_String_append s t :
  String.length (String.append s t) = String.length s + String.length t.
Proof. induction s as [|c s IH]; simpl; [done | by rewrite IH]. Qed.

(** The label of the report in the sidebar is the file name when it has at
    most 15 characters, and otherwise its first 15 characters followed by
    three dots: it never exceeds 18 characters. *)
Theorem report_label_is_bounded r :
  (String.length (App.reportLabel r) ≤ 18)%nat
  ∧ (String.length (fileName r) ≤ 15 → App.reportLabel r = fileName r)%nat
  ∧ (15 < String.length (fileName r) →
     String.length (App.reportLabel r) = 18
     ∧ String.prefix (String.substring 0 15 (fileName r)) (fileName r) = true
     ∧ App.reportLabel r
       = String.append (String.substring 0 15 (fileName r)) "...")%nat.
Proof.
  unfold App.reportLabel.
  destruct (Nat.ltb_spec 15 (String.length (fileName r))) as [Hlong|Hshort].
  - assert (Hlen : String.length (String.substring 0 15 (fileName r)) = 15)
      by (apply length_substring_0; lia).
    split_and!.
    + rewrite length_String_append, Hlen. simpl. lia.
    + lia.
    + intros _. split_and!; [| |done].
      * rewrite length_String_append, Hlen. done.
      * apply String.prefix_correct. by rewrite Hlen.
  - split_and!; [lia | done | lia].
Qed.

Lemma report_label_is_bounded_witness :
  App.reportLabel (Sample.report []) = "plan.png".
Proof.
  apply (proj1 (proj2 (report_label_is_bounded (Sample.report [])))).
  simpl. lia.
Defined.
